(** * SoF Event Extractor backend: job orchestration, upload and export

    A shallow embedding of [backend/app.py]: the upload dispatcher
    ([upload_documents], [upload_single_document], [upload_batch_documents]),
    the batch orchestrator ([process_documents_with_sof_pipeline]), the status
    view ([get_status]) and the export transformer ([export_data]).

    Python dictionaries with a fixed key set become records whose optional keys
    are [option] fields; the process-wide [jobs] dictionary and the file system
    are finite maps inside an explicit [World]; [try]/[except] is the [try_except]
    combinator of a state-and-exception monad.  The collaborators that live in
    [utils.sof_pipeline] (not part of these sources) are fields of [Env]. *)

From Stdlib Require Import String Ascii List ZArith Lia Bool.
From stdpp Require Import base option list gmap strings fin_maps pretty.

(** ** Strings: [str.lower] and [str.split('.')[-1]] (ASCII file names) *)

(** [str.lower] as it acts on ASCII text, where it changes the letters [A] to
    [Z] and nothing else.  On other characters Python's [str.lower] follows
    Unicode; no lowered non-ASCII character is a dot or spells an extension
    of the allow-list, so the decisions taken on the extension are the same,
    and what is stated about the extension's text is stated for ASCII names
    ([isascii]). *)
Definition lower_ascii (c : ascii) : ascii :=
  let n := nat_of_ascii c in
  if Nat.leb 65 n && Nat.leb n 90 then ascii_of_nat (n + 32) else c.

Fixpoint lower (s : string) : string :=
  match s with
  | EmptyString => EmptyString
  | String c s' => String (lower_ascii c) (lower s')
  end.

(** [s.split('.')[-1]]: what follows the last dot, the whole string when
    there is none. [acc] is the segment read since the last dot. *)
Fixpoint last_segment_from (acc s : string) : string :=
  match s with
  | EmptyString => acc
  | String c s' =>
      if Ascii.eqb c "."%char then last_segment_from EmptyString s'
      else last_segment_from (acc +:+ String c EmptyString) s'
  end.

Definition last_segment (s : string) : string := last_segment_from EmptyString s.

(** [job_id[:8]] *)
Fixpoint prefix (n : nat) (s : string) : string :=
  match n, s with
  | S n', String c s' => String c (prefix n' s')
  | _, _ => EmptyString
  end.

(** [', '.join(l)] *)
Fixpoint join (sep : string) (l : list string) : string :=
  match l with
  | [] => ""
  | [x] => x
  | x :: rest => x +:+ sep +:+ join sep rest
  end.

(** ** Values, event records, summaries and data frames *)

(** The scalars that travel in event dictionaries and data-frame cells:
    [None], a missing cell ([NaN]/[NaT]), strings, timestamps, numbers, booleans. *)
Inductive value :=
  | VNone
  | VNaN
  | VStr (s : string)
  | VTime (t : Z)
  | VNum (n : Z)
  | VBool (b : bool).

(** [pd.isna] *)
Definition isna (v : value) : bool :=
  match v with VNone | VNaN => true | _ => false end.

(** Python truthiness of a scalar. *)
Definition truthy (v : value) : bool :=
  match v with
  | VNone => false
  | VNaN => true
  | VStr s => negb (String.eqb s "")
  | VTime _ => true
  | VNum n => negb (Z.eqb n 0)
  | VBool b => b
  end.

(** An event record is a dictionary; insertion order matters for the column
    order of [pd.DataFrame(events)], so it is an association list. *)
Definition event := list (string * value).

(** [d.get(k)] *)
Fixpoint dict_get (k : string) (d : event) : option value :=
  match d with
  | [] => None
  | (k', v) :: rest => if String.eqb k k' then Some v else dict_get k rest
  end.

Definition dict_keys (d : event) : list string := map fst d.

(** A voyage summary is a dictionary whose order is never observed. *)
Abbreviation summary := (gmap string value).

Definition summary_truthy (s : summary) : bool := bool_decide (s ≠ ∅).

Record DataFrame := {
  columns : list string;
  rows : list (list value)
}.

(** [df.empty]: some axis has length 0. *)
Definition df_empty (df : DataFrame) : bool :=
  Nat.eqb (length (rows df)) 0 || Nat.eqb (length (columns df)) 0.

(** [df.to_dict('records')], for a frame whose column labels are distinct (as
    those of every frame built from event records are); under a repeated
    label the dictionary pandas builds keeps the last cell only. *)
Definition to_dict_records (df : DataFrame) : list event :=
  map (fun r => combine (columns df) r) (rows df).

(** Keys of a list of dictionaries in order of first appearance: the column
    index [pd.DataFrame(list_of_dicts)] builds. *)
Fixpoint add_new (seen : list string) (ks : list string) : list string :=
  match ks with
  | [] => seen
  | k :: rest =>
      if bool_decide (k ∈ seen) then add_new seen rest
      else add_new (seen ++ [k]) rest
  end.

Definition union_keys (evs : list event) : list string :=
  fold_left (fun seen ev => add_new seen (dict_keys ev)) evs [].

(** [pd.DataFrame(events)]: a missing key is a [NaN] cell.  Cells are kept as
    given: the column types pandas infers (an integer column with a missing
    cell becomes a float column) are not modelled. *)
Definition DataFrame_of_records (evs : list event) : DataFrame :=
  let cols := union_keys evs in
  {| columns := cols;
     rows := map (fun ev => map (fun c => default VNaN (dict_get c ev)) cols) evs |}.

(** The cells of a row that sit under the columns selected by [p]. *)
Fixpoint pick (p : string -> bool) (cols : list string) (r : list value) : list value :=
  match cols, r with
  | c :: cols', v :: r' => if p c then v :: pick p cols' r' else pick p cols' r'
  | _, _ => []
  end.

Definition label_is (c : string) : string -> bool := fun c' => String.eqb c c'.
Definition label_is_not (c : string) : string -> bool := fun c' => negb (String.eqb c c').

(** [col in df.columns] *)
Definition has_column (c : string) (df : DataFrame) : bool :=
  existsb (label_is c) (columns df).

(** [df.drop(col, axis=1)]: every column labelled [col] goes. *)
Definition df_drop (col : string) (df : DataFrame) : DataFrame :=
  {| columns := List.filter (label_is_not col) (columns df);
     rows := map (pick (label_is_not col) (columns df)) (rows df) |}.

(** [df[cols]]: for each requested label in turn, the columns bearing it. *)
Definition df_select (cols : list string) (df : DataFrame) : DataFrame :=
  {| columns := flat_map (fun c => List.filter (label_is c) (columns df)) cols;
     rows := map (fun r => flat_map (fun c => pick (label_is c) (columns df) r) cols)
                 (rows df) |}.

(** ** Jobs *)

Inductive JobStatus := PENDING | PROCESSING | COMPLETED | FAILED.

#[global] Instance JobStatus_eq_dec : EqDecision JobStatus.
Proof. solve_decision. Defined.

(** The dictionary stored under [jobs[job_id]].  The keys written at creation
    are plain fields; the keys that [dict.update] or a later assignment adds
    are [option] fields, [None] while the key is absent. *)
Record Job := {
  job_id : string;
  status : JobStatus;
  user : string;
  filenames : list string;
  total_files : nat;
  use_enhanced_processing : bool;
  created_at : string;
  events : option (list event);
  job_summary : option summary;
  has_laytime_data : option bool;
  processed_at : option string;
  result_file : option string;
  processed_files : option (list string);
  successful_files : option nat;
  error : option string;
  failed_at : option string;
  batch_name : option string
}.

(** The [result_data] dictionary written to [<job_id>_results.json]. *)
Record ResultData := {
  rd_events : list event;
  rd_summary : summary;
  rd_has_laytime_data : bool;
  rd_processed_files : list string;
  rd_total_files : nat;
  rd_successful_files : nat
}.

(** ** The world: job store, file system, scheduled tasks, clock *)

(** What a file holds.  Serialisation ([json.dump], [to_csv]) is not modelled:
    a file written by the service holds the value that was dumped. *)
Inductive blob :=
  | Raw (content : list Byte.byte)
  | ResultsJson (r : ResultData)
  | CsvFile (df : DataFrame)
  | JsonFile (evs : list event).

(** [background_tasks.add_task(process_documents_with_sof_pipeline, job_id,
    file_paths_and_names, use_enhanced_processing)] *)
Record Task := {
  task_job_id : string;
  task_files : list (string * string);
  task_enhanced : bool
}.

Record World := {
  jobs : gmap string Job;
  disk : gmap string blob;
  background_tasks : list Task;
  clock : nat
}.

Definition set_jobs (f : gmap string Job -> gmap string Job) (w : World) : World :=
  {| jobs := f (jobs w); disk := disk w;
     background_tasks := background_tasks w; clock := clock w |}.

Definition set_disk (f : gmap string blob -> gmap string blob) (w : World) : World :=
  {| jobs := jobs w; disk := f (disk w);
     background_tasks := background_tasks w; clock := clock w |}.

Definition set_tasks (f : list Task -> list Task) (w : World) : World :=
  {| jobs := jobs w; disk := disk w;
     background_tasks := f (background_tasks w); clock := clock w |}.

Definition tick (w : World) : World :=
  {| jobs := jobs w; disk := disk w;
     background_tasks := background_tasks w; clock := S (clock w) |}.

(** ** Exceptions and the monad of handlers *)

(** [HTTPException] is a subclass of [Exception]: an [except Exception]
    clause catches both constructors. *)
Inductive exn :=
  | HTTPException (status_code : nat) (detail : string)
  | Exception (msg : string).

(** [str(e)]: an [HTTPException] prints as its status code and detail. *)
Definition str_exn (e : exn) : string :=
  match e with
  | HTTPException code detail => pretty code +:+ ": " +:+ detail
  | Exception msg => msg
  end.

Inductive outcome (A : Type) :=
  | Ok (a : A)
  | Raise (e : exn).
Arguments Ok {A} a.
Arguments Raise {A} e.

(** A computation reads and writes the world and returns or raises; what it
    wrote before raising stays written. *)
Definition M (A : Type) : Type := World -> outcome A * World.

Definition ret {A} (a : A) : M A := fun w => (Ok a, w).

Definition bind {A B} (m : M A) (k : A -> M B) : M B :=
  fun w => match m w with
           | (Ok a, w') => k a w'
           | (Raise e, w') => (Raise e, w')
           end.

Definition raise {A} (e : exn) : M A := fun w => (Raise e, w).

(** [try: body  except Exception as e: handler(e)] *)
Definition try_except {A} (body : M A) (handler : exn -> M A) : M A :=
  fun w => match body w with
           | (Ok a, w') => (Ok a, w')
           | (Raise e, w') => handler e w'
           end.

(** The result of a call to a collaborator, which touches no state of ours. *)
Definition call {A} (r : outcome A) : M A := fun w => (r, w).

Definition get_world : M World := fun w => (Ok w, w).
Definition modify (f : World -> World) : M unit := fun w => (Ok tt, f w).

(** The world a computation leaves, and what it answers. *)
Definition world_after {A} (m : M A) (w : World) : World := snd (m w).
Definition response_of {A} (m : M A) (w : World) : outcome A := fst (m w).

Declare Scope M_scope.
Delimit Scope M_scope with M.
Notation "x <- m ;; k" := (bind m (fun x => k))
  (at level 100, m at next level, right associativity) : M_scope.
Notation "m ;;; k" := (bind m (fun _ => k))
  (at level 100, right associativity) : M_scope.
Open Scope M_scope.

(** [for x in l: s = body(s, x)] *)
Fixpoint for_each {A St} (body : St -> A -> M St) (l : list A) (s : St) : M St :=
  match l with
  | [] => ret s
  | x :: rest => s' <- body s x ;; for_each body rest s'
  end.

(** [for i, x in enumerate(l)], counting from [i]. *)
Fixpoint for_enumerate {A St} (body : St -> nat -> A -> M St) (i : nat) (l : list A)
  (s : St) : M St :=
  match l with
  | [] => ret s
  | x :: rest => s' <- body s i x ;; for_enumerate body (S i) rest s'
  end.

(** ** Configuration and collaborators *)

(** [FileUpload(content, name)] *)
Record FileUpload := {
  fu_content : list Byte.byte;
  fu_name : string
}.

(** What [process_uploaded_files] returns; the orchestrator only tests it for
    emptiness and hands it to the extractor. *)
Abbreviation Docs := (list string).

Record Env := {
  (** [os.getenv] values *)
  GOOGLE_API_KEY : string;
  MAX_FILE_SIZE : nat;
  UPLOAD_DIR : string;
  RESULTS_DIR : string;
  (** [utils.sof_pipeline] *)
  process_clicked_pdf_enhanced :
    list Byte.byte -> string -> string -> outcome (DataFrame * summary);
  process_uploaded_files : list FileUpload -> outcome Docs;
  extract_events_and_summary : Docs -> string -> outcome (DataFrame * summary);
  calculate_laytime : summary -> DataFrame -> outcome DataFrame;
  (** rendering of timestamps: [isoformat()], [strftime('%Y-%m-%d %H:%M:%S')] *)
  isoformat : Z -> string;
  strftime : Z -> string;
  (** [uuid.uuid4()] and [datetime.now().isoformat()] at a clock reading *)
  uuid4_at : nat -> string;
  now_at : nat -> string;
  (** whether [open(path, 'w')] and the write that follows succeed *)
  writable : string -> bool;
  (** the bytes of a file the service dumped earlier, when read back *)
  dumped : blob -> list Byte.byte
}.

Section Service.

Context (E : Env).

(** *** File system, clock and job store primitives *)

Definition blob_bytes (b : blob) : list Byte.byte :=
  match b with
  | Raw c => c
  | other => dumped E other
  end.

(** [with open(path, 'rb') as f: f.read()] *)
Definition open_rb (path : string) : M (list Byte.byte) :=
  fun w => match disk w !! path with
           | Some b => (Ok (blob_bytes b), w)
           | None => (Raise (Exception ("No such file or directory: " +:+ path)), w)
           end.

(** [with open(path, 'w') as f: ...write...]; the message of the error stands
    for the text of the [OSError]. *)
Definition write_file (path : string) (b : blob) : M unit :=
  if writable E path then modify (set_disk (fun d => <[path := b]> d))
  else raise (Exception ("cannot write " +:+ path)).

(** [datetime.now().isoformat()] *)
Definition now : M string := fun w => (Ok (now_at E (clock w)), tick w).

(** [str(uuid.uuid4())] *)
Definition uuid4 : M string := fun w => (Ok (uuid4_at E (clock w)), tick w).

(** [jobs[job_id]]: a [KeyError] when the key is absent. *)
Definition get_job (id : string) : M Job :=
  fun w => match jobs w !! id with
           | Some j => (Ok j, w)
           | None => (Raise (Exception ("KeyError: " +:+ id)), w)
           end.

Definition put_job (id : string) (j : Job) : M unit :=
  modify (set_jobs (fun js => <[id := j]> js)).

(** *** Batch orchestrator *)

(** [str(value)] *)
Definition str_value (v : value) : string :=
  match v with
  | VNone => "None"
  | VNaN => "nan"
  | VStr s => s
  | VTime t => isoformat E t
  | VNum n => pretty n
  | VBool true => "True"
  | VBool false => "False"
  end.

(** The three-way normalisation applied to every value of an extracted event. *)
Definition normalize_value (v : value) : value :=
  if isna v then VNone
  else match v with
       | VTime t => VStr (isoformat E t)
       | _ => VStr (str_value v)
       end.

Definition normalize_event (ev : event) : event :=
  map (fun kv => (fst kv, normalize_value (snd kv))) ev.

(** The four lists the orchestrator accumulates. *)
Record Acc := {
  all_file_uploads : list FileUpload;
  all_events_list : list event;
  all_summaries : list summary;
  processed_filenames : list string
}.

Definition acc0 : Acc :=
  {| all_file_uploads := []; all_events_list := []; all_summaries := [];
     processed_filenames := [] |}.

(** The test of line 345: enhanced flag, [pdf] extension, lone file. *)
Definition takes_enhanced_path (use_enhanced : bool) (filename : string) (n_files : nat)
  : bool :=
  use_enhanced && String.eqb (last_segment (lower filename)) "pdf" && Nat.eqb n_files 1.

(** What an extraction result adds to the accumulated events and summaries. *)
Definition add_extraction (source_file : string) (r : DataFrame * summary) (acc : Acc)
  : Acc :=
  let events_df := fst r in
  let summary_data := snd r in
  {| all_file_uploads := all_file_uploads acc;
     all_events_list :=
       if negb (df_empty events_df)
       then all_events_list acc ++ map normalize_event (to_dict_records events_df)
       else all_events_list acc;
     all_summaries :=
       if summary_truthy summary_data
       then all_summaries acc ++ [<["source_file" := VStr source_file]> summary_data]
       else all_summaries acc;
     processed_filenames := processed_filenames acc |}.

Definition add_processed (names : list string) (acc : Acc) : Acc :=
  {| all_file_uploads := all_file_uploads acc;
     all_events_list := all_events_list acc;
     all_summaries := all_summaries acc;
     processed_filenames := processed_filenames acc ++ names |}.

Definition add_upload (fu : FileUpload) (acc : Acc) : Acc :=
  {| all_file_uploads := all_file_uploads acc ++ [fu];
     all_events_list := all_events_list acc;
     all_summaries := all_summaries acc;
     processed_filenames := processed_filenames acc |}.

(** From the dispatch test on (lines 343-376), for a file already read. *)
Definition dispatch_file (use_enhanced : bool) (n_files : nat) (acc : Acc)
  (filename : string) (file_content : list Byte.byte) : M Acc :=
  let file_upload := {| fu_content := file_content; fu_name := filename |} in
  if takes_enhanced_path use_enhanced filename n_files then
    if negb (String.eqb (GOOGLE_API_KEY E) "") then
      r <- call (process_clicked_pdf_enhanced E file_content filename (GOOGLE_API_KEY E)) ;;
      ret (add_processed [filename] (add_extraction filename r acc))
    else raise (Exception "Enhanced processing requires Google API key")
  else ret (add_upload file_upload acc).

(** The body of the per-file loop with its own [try]/[except]: a file whose
    read or extraction raises leaves the accumulated lists as they were. *)
Definition read_and_dispatch (use_enhanced : bool) (n_files : nat) (acc : Acc)
  (pf : string * string) : M Acc :=
  file_content <- open_rb (fst pf) ;;
  dispatch_file use_enhanced n_files acc (snd pf) file_content.

Definition process_file (use_enhanced : bool) (n_files : nat) (acc : Acc)
  (pf : string * string) : M Acc :=
  try_except (read_and_dispatch use_enhanced n_files acc pf) (fun file_error => ret acc).

(** The standard pipeline over the collected uploads (lines 384-419). *)
Definition run_batch (acc : Acc) : M Acc :=
  docs <- call (process_uploaded_files E (all_file_uploads acc)) ;;
  acc1 <- match docs with
          | [] => ret acc
          | _ :: _ =>
              if negb (String.eqb (GOOGLE_API_KEY E) "") then
                r <- call (extract_events_and_summary E docs (GOOGLE_API_KEY E)) ;;
                ret (add_extraction "batch_processed" r acc)
              else ret acc
          end ;;
  ret (add_processed (map fu_name (all_file_uploads acc)) acc1).

Definition process_batch (acc : Acc) : M Acc :=
  match all_file_uploads acc with
  | [] => ret acc
  | _ :: _ => try_except (run_batch acc) (fun batch_error => ret acc)
  end.

(** The first summary wins; its [source_file] key is removed. *)
Fixpoint combine_summaries (l : list summary) : summary :=
  match l with
  | [] => ∅
  | s :: rest =>
      if summary_truthy s then delete "source_file" s else combine_summaries rest
  end.

Definition any_laytime_counts (evs : list event) : bool :=
  existsb (fun ev => match dict_get "laytime_counts" ev with
                     | Some v => truthy v
                     | None => false
                     end) evs.

Definition make_result_data (n_files : nat) (acc : Acc) : ResultData :=
  {| rd_events := all_events_list acc;
     rd_summary := combine_summaries (all_summaries acc);
     rd_has_laytime_data :=
       Nat.ltb 0 (length (all_events_list acc)) && any_laytime_counts (all_events_list acc);
     rd_processed_files := processed_filenames acc;
     rd_total_files := n_files;
     rd_successful_files := length (processed_filenames acc) |}.

Definition results_path (id : string) : string :=
  RESULTS_DIR E +:+ "/" +:+ id +:+ "_results.json".

(** [jobs[job_id].update({... COMPLETED ...})] on the stored record [j]. *)
Definition completed_job (j : Job) (rd : ResultData) (path : string) (t : string) : Job :=
  {| job_id := job_id j; status := COMPLETED; user := user j; filenames := filenames j;
     total_files := rd_total_files rd;
     use_enhanced_processing := use_enhanced_processing j; created_at := created_at j;
     events := Some (rd_events rd);
     job_summary := Some (rd_summary rd);
     has_laytime_data := Some (rd_has_laytime_data rd);
     processed_at := Some t;
     result_file := Some path;
     processed_files := Some (rd_processed_files rd);
     successful_files := Some (rd_successful_files rd);
     error := error j; failed_at := failed_at j; batch_name := batch_name j |}.

(** [jobs[job_id].update({"status": FAILED, "error": str(e), "failed_at": ...})] *)
Definition failed_job (j : Job) (e : exn) (t : string) : Job :=
  {| job_id := job_id j; status := FAILED; user := user j; filenames := filenames j;
     total_files := total_files j;
     use_enhanced_processing := use_enhanced_processing j; created_at := created_at j;
     events := events j; job_summary := job_summary j;
     has_laytime_data := has_laytime_data j; processed_at := processed_at j;
     result_file := result_file j; processed_files := processed_files j;
     successful_files := successful_files j;
     error := Some (str_exn e); failed_at := Some t; batch_name := batch_name j |}.

(** The two loops of the orchestrator, before anything is saved. *)
Definition gather (file_paths_and_names : list (string * string)) (use_enhanced : bool)
  : M Acc :=
  acc <- for_each (process_file use_enhanced (length file_paths_and_names))
                  file_paths_and_names acc0 ;;
  process_batch acc.

(** The [try] block of the orchestrator: gather, save the result file, mark
    the job completed. *)
Definition orchestrate (id : string) (file_paths_and_names : list (string * string))
  (use_enhanced : bool) : M unit :=
  acc <- gather file_paths_and_names use_enhanced ;;
  let result_data := make_result_data (length file_paths_and_names) acc in
  let path := results_path id in
  write_file path (ResultsJson result_data) ;;;
  j <- get_job id ;;
  t <- now ;;
  put_job id (completed_job j result_data path t).

(** The outer [except Exception as e] clause. *)
Definition record_failure (id : string) (e : exn) : M unit :=
  j <- get_job id ;;
  t <- now ;;
  put_job id (failed_job j e t).

Definition process_documents_with_sof_pipeline (id : string)
  (file_paths_and_names : list (string * string)) (use_enhanced : bool) : M unit :=
  try_except (orchestrate id file_paths_and_names use_enhanced) (record_failure id).

(** *** Upload dispatcher *)

(** A submitted [UploadFile]: its name and the bytes [await file.read()] gives. *)
Record UploadFile := {
  uf_filename : string;
  uf_content : list Byte.byte
}.

Definition allowed_extensions : list string :=
  [".pdf"; ".docx"; ".doc"; ".txt"; ".png"; ".jpg"; ".jpeg"; ".tiff"; ".bmp"; ".webp"].

(** ['.' + file.filename.lower().split('.')[-1]] *)
Definition dotted_extension (name : string) : string :=
  "." +:+ last_segment (lower name).

(** [UPLOAD_DIR / f"{job_id}_{i}_{file.filename}"] *)
Definition upload_path (id : string) (i : nat) (name : string) : string :=
  UPLOAD_DIR E +:+ "/" +:+ id +:+ "_" +:+ pretty i +:+ "_" +:+ name.

(** The detail of the refusal.  The code joins the elements of a set, in
    whatever order the set iterates; they are joined here in the order of the
    source. *)
Definition unsupported_type_detail (name : string) : string :=
  "Unsupported file type: " +:+ dotted_extension name +:+ " in file '" +:+ name
  +:+ "'. Supported types: " +:+ join ", " allowed_extensions.

Definition too_large_detail (name : string) : string :=
  "File '" +:+ name +:+ "' exceeds the maximum allowed size ("
  +:+ pretty (MAX_FILE_SIZE E) +:+ " bytes)".

(** The body of the validation loop; the state is the pair
    ([validated_files], [file_paths_and_names]). *)
Definition validate_and_save (id : string)
  (st : list string * list (string * string)) (i : nat) (file : UploadFile)
  : M (list string * list (string * string)) :=
  if negb (bool_decide (dotted_extension (uf_filename file) ∈ allowed_extensions)) then
    raise (HTTPException 400 (unsupported_type_detail (uf_filename file)))
  else if Nat.ltb (MAX_FILE_SIZE E) (length (uf_content file)) then
    raise (HTTPException 400 (too_large_detail (uf_filename file)))
  else
    let file_path := upload_path id i (uf_filename file) in
    write_file file_path (Raw (uf_content file)) ;;;
    ret (fst st ++ [uf_filename file], snd st ++ [(file_path, uf_filename file)]).

(** The job entry written at creation. *)
Definition new_job (id : string) (validated_files : list string) (use_enhanced : bool)
  (t : string) : Job :=
  {| job_id := id; status := PROCESSING; user := "demo";
     filenames := validated_files; total_files := length validated_files;
     use_enhanced_processing := use_enhanced; created_at := t;
     events := None; job_summary := None; has_laytime_data := None;
     processed_at := None; result_file := None; processed_files := None;
     successful_files := None; error := None; failed_at := None; batch_name := None |}.

(** The dictionary [upload_documents] returns. *)
Record UploadResult := {
  ur_message : string;
  ur_job_id : string;
  ur_filenames : list string;
  ur_total_files : nat;
  ur_enhanced_processing : bool
}.

(** [except HTTPException: raise] then
    [except Exception as e: raise HTTPException(500, "Batch upload failed: ...")] *)
Definition upload_handler {A} (e : exn) : M A :=
  match e with
  | HTTPException _ _ => raise e
  | Exception _ => raise (HTTPException 500 ("Batch upload failed: " +:+ str_exn e))
  end.

Definition upload_documents (files : list UploadFile) (use_enhanced : bool)
  : M UploadResult :=
  try_except
    (match files with
     | [] => raise (HTTPException 400 "No files uploaded")
     | _ :: _ =>
         id <- uuid4 ;;
         st <- for_enumerate (validate_and_save id) 0 files ([], []) ;;
         let validated_files := fst st in
         let file_paths_and_names := snd st in
         t <- now ;;
         put_job id (new_job id validated_files use_enhanced t) ;;;
         modify (set_tasks (fun ts =>
           ts ++ [{| task_job_id := id; task_files := file_paths_and_names;
                     task_enhanced := use_enhanced |}])) ;;;
         ret {| ur_message := pretty (length validated_files) +:+ " file(s) uploaded successfully";
                ur_job_id := id;
                ur_filenames := validated_files;
                ur_total_files := length validated_files;
                ur_enhanced_processing := use_enhanced |}
     end)
    upload_handler.

(** The legacy single-file entry point. *)
Definition upload_single_document (file : UploadFile) (use_enhanced : bool)
  : M UploadResult :=
  upload_documents [file] use_enhanced.

(** [{**result, "batch_name": batch_name, "batch_size": len(files)}] *)
Record BatchResult := {
  br_result : UploadResult;
  br_batch_name : option string;
  br_batch_size : nat
}.

(** Truthiness of an [Optional[str]]. *)
Definition label_given (label : option string) : bool :=
  match label with
  | Some s => negb (String.eqb s "")
  | None => false
  end.

Definition set_batch_name (label : option string) (j : Job) : Job :=
  {| job_id := job_id j; status := status j; user := user j; filenames := filenames j;
     total_files := total_files j;
     use_enhanced_processing := use_enhanced_processing j; created_at := created_at j;
     events := events j; job_summary := job_summary j;
     has_laytime_data := has_laytime_data j; processed_at := processed_at j;
     result_file := result_file j; processed_files := processed_files j;
     successful_files := successful_files j;
     error := error j; failed_at := failed_at j; batch_name := label |}.

(** [if batch_name: jobs[job_id]["batch_name"] = batch_name] *)
Definition attach_batch_name (id : string) (label : option string) : M unit :=
  if label_given label then
    j <- get_job id ;;
    put_job id (set_batch_name label j)
  else ret tt.

Definition upload_batch_documents (files : list UploadFile) (use_enhanced : bool)
  (label : option string) : M BatchResult :=
  try_except
    (match files with
     | [] => raise (HTTPException 400 "No files uploaded")
     | _ :: _ =>
         if Nat.ltb 10 (length files) then
           raise (HTTPException 400 "Maximum 10 files per batch")
         else
           result <- upload_documents files use_enhanced ;;
           attach_batch_name (ur_job_id result) label ;;;
           ret {| br_result := result; br_batch_name := label;
                  br_batch_size := length files |}
     end)
    upload_handler.

(** [background_tasks] runs a scheduled orchestration after the response. *)
Definition run_task (t : Task) : M unit :=
  process_documents_with_sof_pipeline (task_job_id t) (task_files t) (task_enhanced t).

(** *** Status view *)

Record StatusView := {
  sv_job_id : string;
  sv_status : JobStatus;
  sv_filenames : list string;
  sv_total_files : nat;
  sv_successful_files : nat;
  sv_created_at : string
}.

(** The entry [get_status] and [list_jobs] build from a stored job. *)
Definition status_view (id : string) (job : Job) : StatusView :=
  {| sv_job_id := id;
     sv_status := status job;
     sv_filenames := match filenames job with [] => [""] | l => l end;
     sv_total_files := total_files job;
     sv_successful_files :=
       if bool_decide (status job = COMPLETED) then default 0 (successful_files job)
       else 0;
     sv_created_at := created_at job |}.

Definition get_status (id : string) : M StatusView :=
  w <- get_world ;;
  match jobs w !! id with
  | None => raise (HTTPException 404 "Job not found")
  | Some job => ret (status_view id job)
  end.

(** *** Export transformer *)

Definition columns_to_remove : list string :=
  ["start"; "end"; "duration"; "laytime_utilization_%"; "event"; "date";
   "description"; "raw_line"; "filename"].

Definition preferred_columns : list string :=
  ["Event"; "start_time_iso"; "end_time_iso"; "Date"; "Duration"; "Laytime";
   "Raw Line"; "Filename"].

(** [if col in events_df.columns: events_df = events_df.drop(col, axis=1)] *)
Definition drop_if_present (col : string) (df : DataFrame) : DataFrame :=
  if has_column col df then df_drop col df else df.

(** The laytime recomputation with its inner [try]/[except]: on failure the
    frame built from the events is kept. *)
Definition with_laytime (sm : summary) (events_df : DataFrame) : DataFrame :=
  if summary_truthy sm && negb (df_empty events_df) then
    match calculate_laytime E sm events_df with
    | Ok df' => df'
    | Raise _ => events_df
    end
  else events_df.

Definition final_columns (df : DataFrame) : list string :=
  List.filter (fun col => has_column col df) preferred_columns.

(** Lines 766-782: drop [laytime_counts], drop the unwanted columns, project. *)
Definition normalize_columns (df : DataFrame) : DataFrame :=
  let df1 := drop_if_present "laytime_counts" df in
  let df2 := fold_left (fun d col => drop_if_present col d) columns_to_remove df1 in
  df_select (final_columns df2) df2.

(** The value written for a cell of the JSON export. *)
Definition clean_value (v : value) : value :=
  if isna v || match v with VStr s => String.eqb s "" | _ => false end then VNone
  else match v with
       | VTime t => VStr (strftime E t)
       | _ => VStr (str_value v)
       end.

Definition clean_events (df : DataFrame) : list event :=
  map (fun r => map (fun kv => (fst kv, clean_value (snd kv))) (combine (columns df) r))
      (rows df).

Record FileResponse := {
  fr_path : string;
  fr_media_type : string;
  fr_filename : string
}.

Definition export_path (id ext : string) : string :=
  RESULTS_DIR E +:+ "/" +:+ id +:+ "_export." +:+ ext.

(** The [try] block of [export_data], from the chosen events on. *)
Definition export_body (id : string) (sm : summary) (evs : list event)
  (export_format : string) : M FileResponse :=
  let events_df := normalize_columns (with_laytime sm (DataFrame_of_records evs)) in
  if String.eqb (lower export_format) "csv" then
    let csv_file := export_path id "csv" in
    write_file csv_file (CsvFile events_df) ;;;
    ret {| fr_path := csv_file; fr_media_type := "text/csv";
           fr_filename := "sof_events_" +:+ prefix 8 id +:+ ".csv" |}
  else if String.eqb (lower export_format) "json" then
    let json_file := export_path id "json" in
    write_file json_file (JsonFile (clean_events events_df)) ;;;
    ret {| fr_path := json_file; fr_media_type := "application/json";
           fr_filename := "sof_events_" +:+ prefix 8 id +:+ ".json" |}
  else raise (HTTPException 400 "Invalid export format. Use 'csv' or 'json'").

(** [if export_request.events: ... else: events = job["events"]] *)
Definition choose_events (request_events : list event) (job : Job) : M (list event) :=
  match request_events with
  | _ :: _ => ret request_events
  | [] => match events job with
          | Some evs => ret evs
          | None => raise (Exception "KeyError: 'events'")
          end
  end.

(** The [try] block with its [except Exception] clause, which turns whatever
    the block raises into a 500 response. *)
Definition export_attempt (id : string) (sm : summary) (evs : list event)
  (export_format : string) : M FileResponse :=
  try_except
    (export_body id sm evs export_format)
    (fun e => raise (HTTPException 500 ("Export failed: " +:+ str_exn e))).

Definition export_data (id : string) (request_events : list event)
  (export_format : string) : M FileResponse :=
  w <- get_world ;;
  match jobs w !! id with
  | None => raise (HTTPException 404 "Job not found")
  | Some job =>
      if negb (bool_decide (status job = COMPLETED)) then
        raise (HTTPException 400 "Job not completed yet")
      else
        evs <- choose_events request_events job ;;
        let sm := default ∅ (job_summary job) in
        match evs with
        | [] => raise (HTTPException 404 "No events found")
        | _ :: _ => export_attempt id sm evs export_format
        end
  end.

End Service.

(** ** Vocabulary of the statements *)

Section Vocabulary.

Context (E : Env).

(** *** Orchestrator *)

(** The files the loop has dealt with so far: processed or waiting. *)
Definition handled (acc : Acc) : nat :=
  length (processed_filenames acc) + length (all_file_uploads acc).

(** The world a completed run leaves: result file written, clock advanced,
    job entry replaced. *)
Definition completed_world (id : string) (j : Job) (rd : ResultData) (w : World) : World :=
  set_jobs (fun js => <[id := completed_job j rd (results_path E id) (now_at E (clock w))]> js)
    (tick (set_disk (fun d => <[results_path E id := ResultsJson rd]> d) w)).

(** The world a failed run leaves: clock advanced, job entry marked. *)
Definition failed_world (id : string) (j : Job) (e : exn) (w : World) : World :=
  set_jobs (fun js => <[id := failed_job j e (now_at E (clock w))]> js) (tick w).

(** The upload object the loop builds for a path that can be read. *)
Definition as_upload (w : World) (pf : string * string) : option FileUpload :=
  match disk w !! pf.1 with
  | Some b => Some {| fu_content := blob_bytes E b; fu_name := pf.2 |}
  | None => None
  end.

(** The uploads of the paths that can be read, in order. *)
Definition readable_uploads (w : World) (files : list (string * string))
  : list FileUpload :=
  omap (as_upload w) files.

(** [all_file_uploads] extended by several uploads at once. *)
Definition add_uploads (ups : list FileUpload) (acc : Acc) : Acc :=
  {| all_file_uploads := all_file_uploads acc ++ ups;
     all_events_list := all_events_list acc;
     all_summaries := all_summaries acc;
     processed_filenames := processed_filenames acc |}.

(** An error on a single file: its path cannot be read, or it takes the
    enhanced path and either no key is configured or the extractor raises. *)
Definition file_fails (flag : bool) (n : nat) (w : World) (pf : string * string) : Prop :=
  match disk w !! pf.1 with
  | None => True
  | Some b =>
      takes_enhanced_path flag pf.2 n = true /\
      (GOOGLE_API_KEY E = "" \/
       exists e, process_clicked_pdf_enhanced E (blob_bytes E b) pf.2 (GOOGLE_API_KEY E)
                 = Raise e)
  end.

(** An error of the standard batch call: loading the documents raises, or
    the extraction over the loaded documents raises. *)
Definition batch_fails (acc : Acc) : Prop :=
  match process_uploaded_files E (all_file_uploads acc) with
  | Raise _ => True
  | Ok [] => False
  | Ok (d :: docs) =>
      GOOGLE_API_KEY E <> "" /\
      exists e, extract_events_and_summary E (d :: docs) (GOOGLE_API_KEY E) = Raise e
  end.

(** *** Upload dispatcher *)

(** The world a successful upload leaves behind the validation loop. *)
Definition created_world (id : string) (st : list string * list (string * string))
  (flag : bool) (w1 : World) : World :=
  set_tasks (fun ts => ts ++ [{| task_job_id := id; task_files := st.2;
                                  task_enhanced := flag |}])
    (set_jobs (fun js => <[id := new_job id st.1 flag (now_at E (clock w1))]> js)
       (tick w1)).

(** The response of a successful upload. *)
Definition upload_result (id : string) (names : list string) (flag : bool) : UploadResult :=
  {| ur_message := pretty (length names) +:+ " file(s) uploaded successfully";
     ur_job_id := id; ur_filenames := names; ur_total_files := length names;
     ur_enhanced_processing := flag |}.

(** The two checks of the validation loop on one file. *)
Definition acceptable (f : UploadFile) : bool :=
  bool_decide (dotted_extension (uf_filename f) ∈ allowed_extensions)
  && negb (Nat.ltb (MAX_FILE_SIZE E) (length (uf_content f))).

(** The message of the check a file fails (the extension is checked first). *)
Definition rejection_detail (f : UploadFile) : string :=
  if bool_decide (dotted_extension (uf_filename f) ∈ allowed_extensions)
  then too_large_detail E (uf_filename f)
  else unsupported_type_detail (uf_filename f).

(** The disk after saving [files] as uploads number [i], [i+1], ... of job [id]. *)
Fixpoint persist (id : string) (i : nat) (files : list UploadFile) (d : gmap string blob)
  : gmap string blob :=
  match files with
  | [] => d
  | f :: rest =>
      persist id (S i) rest (<[upload_path E id i (uf_filename f) := Raw (uf_content f)]> d)
  end.

(** The two lists the validation loop has built after saving [files]. *)
Definition saved_names (files : list UploadFile) : list string := map uf_filename files.

Fixpoint saved_paths (id : string) (i : nat) (files : list UploadFile)
  : list (string * string) :=
  match files with
  | [] => []
  | f :: rest => (upload_path E id i (uf_filename f), uf_filename f) :: saved_paths id (S i) rest
  end.

(** *** Export transformer *)

(** A column survives the removals when its label is none of the removed ones. *)
Definition survives (removed : list string) (x : string) : bool :=
  forallb (fun c => label_is_not c x) removed.

(** The frame the projection is applied to: everything unwanted removed. *)
Definition pruned (df : DataFrame) : DataFrame :=
  fold_left (fun d col => drop_if_present col d) columns_to_remove
            (drop_if_present "laytime_counts" df).

(** The two downloads, and the two exceptions of the format check. *)
Definition csv_response (id : string) : FileResponse :=
  {| fr_path := export_path E id "csv"; fr_media_type := "text/csv";
     fr_filename := "sof_events_" +:+ prefix 8 id +:+ ".csv" |}.

Definition json_response (id : string) : FileResponse :=
  {| fr_path := export_path E id "json"; fr_media_type := "application/json";
     fr_filename := "sof_events_" +:+ prefix 8 id +:+ ".json" |}.

Definition invalid_format : exn :=
  HTTPException 400 "Invalid export format. Use 'csv' or 'json'".

Definition export_failed (e : exn) : exn :=
  HTTPException 500 ("Export failed: " +:+ str_exn e).

(** *** Entry points and life of the job store *)

(** The batch-labelled submission as the specification words it: more than
    10 files are refused; otherwise it is the multi-file submission, after
    which the optional label is attached to the job just created. *)
Definition labelled_submission (files : list UploadFile) (flag : bool)
  (label : option string) : M BatchResult :=
  fun w =>
    if Nat.ltb 10 (length files) then
      (Raise (HTTPException 400 "Maximum 10 files per batch"), w)
    else
      match upload_documents E files flag w with
      | (Ok r, w1) =>
          (Ok {| br_result := r; br_batch_name := label; br_batch_size := length files |},
           if label_given label
           then set_jobs (fun js => alter (set_batch_name label) (ur_job_id r) js) w1
           else w1)
      | (Raise e, w1) => (Raise e, w1)
      end.

(** What can happen to the world: a request to one of the entry points that
    write, a status read or an export, or the run of an orchestration task
    (on any arguments). The other endpoints only read the job store. *)
Inductive request :=
  | ReqUpload (files : list UploadFile) (flag : bool)
  | ReqUploadSingle (file : UploadFile) (flag : bool)
  | ReqUploadBatch (files : list UploadFile) (flag : bool) (label : option string)
  | ReqStatus (id : string)
  | ReqExport (id : string) (override : list event) (fmt : string)
  | RunTask (t : Task).

Definition serve (w : World) (r : request) : World :=
  match r with
  | ReqUpload files flag => world_after (upload_documents E files flag) w
  | ReqUploadSingle file flag => world_after (upload_single_document E file flag) w
  | ReqUploadBatch files flag label =>
      world_after (upload_batch_documents E files flag label) w
  | ReqStatus id => world_after (get_status id) w
  | ReqExport id override fmt => world_after (export_data E id override fmt) w
  | RunTask t => world_after (run_task E t) w
  end.

(** The world after a sequence of requests. *)
Definition serve_all (w : World) (rs : list request) : World := fold_left serve rs w.

(** The invariant on a stored record: when [successful_files] is present it
    does not exceed [total_files]. *)
Definition counts_ok (j : Job) : Prop :=
  match successful_files j with
  | Some k => k <= total_files j
  | None => True
  end.

(** Every stored record satisfies the invariant. *)
Definition store_ok (w : World) : Prop :=
  forall id j, jobs w !! id = Some j -> counts_ok j.

(** The same deployment with another extractor behind the standard path. *)
Definition with_extractor (f : Docs -> string -> outcome (DataFrame * summary)) : Env :=
  {| GOOGLE_API_KEY := GOOGLE_API_KEY E;
     MAX_FILE_SIZE := MAX_FILE_SIZE E;
     UPLOAD_DIR := UPLOAD_DIR E;
     RESULTS_DIR := RESULTS_DIR E;
     process_clicked_pdf_enhanced := process_clicked_pdf_enhanced E;
     process_uploaded_files := process_uploaded_files E;
     extract_events_and_summary := f;
     calculate_laytime := calculate_laytime E;
     isoformat := isoformat E;
     strftime := strftime E;
     uuid4_at := uuid4_at E;
     now_at := now_at E;
     writable := writable E;
     dumped := dumped E |}.

(** Every file can be read and none meets the enhanced test. *)
Definition all_to_batch (flag : bool) (w : World) (files : list (string * string)) : Prop :=
  Forall (fun pf => is_Some (disk w !! pf.1)
                    /\ takes_enhanced_path flag pf.2 (length files) = false) files.

End Vocabulary.

(** ** A concrete deployment, for running the service on examples *)

Definition demo_frame : DataFrame :=
  {| columns := ["Event"; "start"; "laytime_counts"; "Filename"; "notes"];
     rows := [[VStr "Arrival"; VTime 0; VBool true; VStr "a.pdf"; VNaN];
              [VStr "Berthing"; VTime 60; VBool false; VStr "a.pdf"; VStr "tug"]] |}.

Definition demo_summary : summary := {["port" := VStr "Rotterdam"]}.

(** The laytime adapter of the demo: adds a [Laytime] column. *)
Definition demo_laytime (df : DataFrame) : DataFrame :=
  {| columns := columns df ++ ["Laytime"];
     rows := map (fun r => r ++ [VNum 1]) (rows df) |}.

(** Extraction fails on an empty document; nothing under [/readonly] can be
    written; identifiers and timestamps are numbered by the clock. *)
Definition demo_env (key results_dir : string) : Env :=
  {| GOOGLE_API_KEY := key;
     MAX_FILE_SIZE := 4;
     UPLOAD_DIR := "uploads";
     RESULTS_DIR := results_dir;
     process_clicked_pdf_enhanced := fun content _ _ =>
       match content with
       | [] => Raise (Exception "empty PDF")
       | _ :: _ => Ok (demo_frame, demo_summary)
       end;
     process_uploaded_files := fun ups =>
       if forallb (fun u => negb (Nat.eqb (length (fu_content u)) 0)) ups
       then Ok (map fu_name ups)
       else Raise (Exception "empty document");
     extract_events_and_summary := fun docs _ =>
       match docs with
       | "bad.txt" :: _ => Raise (Exception "extraction failed")
       | _ => Ok (demo_frame, demo_summary)
       end;
     calculate_laytime := fun _ df => Ok (demo_laytime df);
     isoformat := fun t => "iso" +:+ pretty t;
     strftime := fun t => "ymd" +:+ pretty t;
     uuid4_at := fun n => "job" +:+ pretty n;
     now_at := fun n => "t" +:+ pretty n;
     writable := fun path => negb (String.eqb (prefix 9 path) "/readonly");
     dumped := fun _ => [] |}.

Definition world0 : World :=
  {| jobs := ∅; disk := ∅; background_tasks := []; clock := 0 |}.

Definition x00 : Byte.byte := Byte.x00.

Definition file_a_pdf : UploadFile := {| uf_filename := "a.pdf"; uf_content := [x00] |}.
Definition file_b_txt : UploadFile := {| uf_filename := "b.txt"; uf_content := [x00; x00] |}.
Definition file_c_exe : UploadFile := {| uf_filename := "c.exe"; uf_content := [x00] |}.
Definition file_big_pdf : UploadFile :=
  {| uf_filename := "big.PDF"; uf_content := [x00; x00; x00; x00; x00] |}.

(** The world after the scheduled tasks of a request have run in order. *)
Definition run_scheduled (E : Env) (w : World) : World :=
  fold_left (fun w' t => world_after (run_task E t) w') (background_tasks w)
            (set_tasks (fun _ => []) w).

Definition with_key : Env := demo_env "secret" "results".
Definition without_key : Env := demo_env "" "results".
Definition read_only_results : Env := demo_env "secret" "/readonly".

(** The deployment in which [utils.sof_pipeline] failed to import: the four
    collaborators are [None] and calling one raises. *)
Definition pipeline_missing : Env :=
  let not_callable := Exception "'NoneType' object is not callable" in
  {| GOOGLE_API_KEY := "";
     MAX_FILE_SIZE := 4;
     UPLOAD_DIR := "uploads";
     RESULTS_DIR := "results";
     process_clicked_pdf_enhanced := fun _ _ _ => Raise not_callable;
     process_uploaded_files := fun _ => Raise not_callable;
     extract_events_and_summary := fun _ _ => Raise not_callable;
     calculate_laytime := fun _ _ => Raise not_callable;
     isoformat := fun t => "iso" +:+ pretty t;
     strftime := fun t => "ymd" +:+ pretty t;
     uuid4_at := fun n => "job" +:+ pretty n;
     now_at := fun n => "t" +:+ pretty n;
     writable := fun _ => true;
     dumped := fun _ => [] |}.

(** One PDF uploaded with the enhanced flag, not yet processed. *)
Definition one_pdf_uploaded : World :=
  world_after (upload_documents with_key [file_a_pdf] true) world0.

(** The same after its orchestration task has run. *)
Definition one_pdf_done : World := run_scheduled with_key one_pdf_uploaded.

(** A text file uploaded to the deployment without a key. *)
Definition one_txt_uploaded : World :=
  world_after (upload_documents without_key [file_b_txt] false) world0.

(** The stored job once the lone PDF has been processed. *)
Definition job0_done : Job :=
  Eval vm_compute in default (new_job "" [] false "") (jobs one_pdf_done !! "job0").

(** ** The remaining endpoints *)

(** *** Results *)

(** The three shapes of the dictionary [get_result] returns. *)
Inductive ResultView :=
  | StillProcessing (id message : string) (total : nat) (names : list string)
  | JobFailed (id err : string) (total : nat) (names : list string)
  | JobCompleted (id : string) (names : list string) (total : nat)
      (processed : list string) (successful : nat) (evs : list event) (sm : summary)
      (laytime : bool) (at_time : string).

(** [get_result]: the last branch serves every status that is neither
    PROCESSING nor FAILED, and reads [job["events"]] and [job["processed_at"]]
    without a default. *)
Definition get_result (id : string) : M ResultView :=
  w <- get_world ;;
  match jobs w !! id with
  | None => raise (HTTPException 404 "Job not found")
  | Some job =>
      match status job with
      | PROCESSING =>
          ret (StillProcessing id "Document(s) still being processed"
                 (total_files job) (filenames job))
      | FAILED =>
          match error job with
          | Some err => ret (JobFailed id err (total_files job) (filenames job))
          | None => raise (Exception "KeyError: 'error'")
          end
      | _ =>
          let names := match filenames job with [] => [""] | l => l end in
          match events job with
          | None => raise (Exception "KeyError: 'events'")
          | Some evs =>
              match processed_at job with
              | None => raise (Exception "KeyError: 'processed_at'")
              | Some t =>
                  ret (JobCompleted id names (total_files job)
                         (default names (processed_files job))
                         (default (length names) (successful_files job))
                         evs
                         (default ∅ (job_summary job))
                         (default false (has_laytime_data job))
                         t)
              end
          end
      end
  end.

(** *** Laytime calculation *)

Section LaytimeEndpoint.

(** The numbers of a laytime result are passed through untouched. *)
Context {number : Type}.

(** [utils.sof_pipeline.LaytimeResult] as the endpoint reads it. *)
Record SofLaytimeResult := {
  laytime_allowed_days : number;
  laytime_consumed_days : number;
  laytime_saved_days : number;
  demurrage_due : number;
  dispatch_due : number;
  calculation_log : list string;
  events_df : DataFrame
}.

(** The dictionary [calculate_laytime_endpoint] returns. *)
Record LaytimeResponse := {
  lr_allowed_days : number;
  lr_consumed_days : number;
  lr_saved_days : number;
  lr_demurrage_due : number;
  lr_dispatch_due : number;
  lr_calculation_log : list string;
  lr_events_with_calculations : list event
}.

(** [calculate_laytime] with its whole result. *)
Context (calculate : summary -> DataFrame -> outcome SofLaytimeResult).

Definition laytime_response (r : SofLaytimeResult) : LaytimeResponse :=
  {| lr_allowed_days := laytime_allowed_days r;
     lr_consumed_days := laytime_consumed_days r;
     lr_saved_days := laytime_saved_days r;
     lr_demurrage_due := demurrage_due r;
     lr_dispatch_due := dispatch_due r;
     lr_calculation_log := calculation_log r;
     lr_events_with_calculations :=
       if negb (df_empty (events_df r)) then to_dict_records (events_df r) else [] |}.

(** The whole handler is one [try] block under [except Exception]. *)
Definition calculate_laytime_endpoint (sm : summary) (evs : list event)
  : M LaytimeResponse :=
  try_except
    (let frame := DataFrame_of_records evs in
     if df_empty frame then
       raise (HTTPException 400 "No events provided for calculation")
     else
       r <- call (calculate sm frame) ;;
       ret (laytime_response r))
    (fun e => raise (HTTPException 500 ("Laytime calculation failed: " +:+ str_exn e))).

End LaytimeEndpoint.

(** *** Authentication *)

(** The exceptions the authentication handlers tell apart. *)
Inductive auth_exn :=
  | AuthHTTP (status_code : nat) (detail : string)
  | ValueError (msg : string)
  | OtherError (msg : string).

Definition str_auth_exn (e : auth_exn) : string :=
  match e with
  | AuthHTTP code detail => pretty code +:+ ": " +:+ detail
  | ValueError msg => msg
  | OtherError msg => msg
  end.

Inductive answer (A : Type) :=
  | Returned (a : A)
  | Raised (e : auth_exn).
Arguments Returned {A} a.
Arguments Raised {A} e.

(** A stored user, and what the endpoints answer about one: [UserResponse]
    has every field but the password hash. *)
Record User := {
  user_id : string;
  username : string;
  email : string;
  full_name : string;
  is_active : bool;
  user_created_at : string;
  last_login : option string;
  hashed_password : string
}.

Record UserResponse := {
  resp_id : string;
  resp_username : string;
  resp_email : string;
  resp_full_name : string;
  resp_is_active : bool;
  resp_created_at : string;
  resp_last_login : option string
}.

Definition user_response (u : User) : UserResponse :=
  {| resp_id := user_id u; resp_username := username u; resp_email := email u;
     resp_full_name := full_name u; resp_is_active := is_active u;
     resp_created_at := user_created_at u; resp_last_login := last_login u |}.

Record UserCreate := {
  new_username : string;
  new_email : string;
  new_password : string;
  new_full_name : string
}.

Record Token := {
  access_token : string;
  token_type : string;
  token_user : UserResponse
}.

Section Authentication.

(** The user store, and the helpers of [utils.auth] and [utils.user_models]. *)
Context {Db : Type}.

Record AuthEnv := {
  validate_email : string -> bool;
  validate_password_strength : string -> bool;
  get_password_hash : string -> string;
  verify_password : string -> string -> bool;
  create_access_token : string -> nat -> string;
  ACCESS_TOKEN_EXPIRE_MINUTES : nat;
  create_user : UserCreate -> string -> Db -> answer User * Db;
  get_user_by_username : string -> Db -> option User;
  update_last_login : string -> Db -> Db
}.

Context (A : AuthEnv).

Definition weak_password_detail : string :=
  "Password must be at least 8 characters long and contain uppercase, lowercase, and numeric characters".

(** The [try] block of [register]. *)
Definition register_body (uc : UserCreate) (db : Db) : answer UserResponse * Db :=
  if negb (validate_email A (new_email uc)) then
    (Raised (AuthHTTP 400 "Invalid email format"), db)
  else if negb (validate_password_strength A (new_password uc)) then
    (Raised (AuthHTTP 400 weak_password_detail), db)
  else
    match create_user A uc (get_password_hash A (new_password uc)) db with
    | (Returned u, db') => (Returned (user_response u), db')
    | (Raised e, db') => (Raised e, db')
    end.

(** [except ValueError as e: 400, str(e)], then
    [except Exception as e: 500, "Registration failed: ..."]. *)
Definition register (uc : UserCreate) (db : Db) : answer UserResponse * Db :=
  match register_body uc db with
  | (Returned r, db') => (Returned r, db')
  | (Raised (ValueError msg), db') => (Raised (AuthHTTP 400 msg), db')
  | (Raised e, db') =>
      (Raised (AuthHTTP 500 ("Registration failed: " +:+ str_auth_exn e)), db')
  end.

Definition bad_credentials : auth_exn := AuthHTTP 401 "Incorrect username or password".

(** The token and profile both login handlers build once the user is known:
    token, [update_last_login], second lookup.  A user gone at the second
    lookup makes the attribute access fail. *)
Definition issue_token (u : User) (db : Db) : answer Token * Db :=
  let token := create_access_token A (username u) (ACCESS_TOKEN_EXPIRE_MINUTES A) in
  let db' := update_last_login A (username u) db in
  match get_user_by_username A (username u) db' with
  | Some updated =>
      (Returned {| access_token := token; token_type := "bearer";
                   token_user := user_response updated |}, db')
  | None => (Raised (OtherError "'NoneType' object has no attribute 'id'"), db')
  end.

(** The [try] block of [login]. *)
Definition login_body (name password : string) (db : Db) : answer Token * Db :=
  match get_user_by_username A name db with
  | None => (Raised bad_credentials, db)
  | Some u =>
      if negb (verify_password A password (hashed_password u)) then
        (Raised bad_credentials, db)
      else issue_token u db
  end.

(** [except HTTPException: raise], then [except Exception as e: 500]. *)
Definition login (name password : string) (db : Db) : answer Token * Db :=
  match login_body name password db with
  | (Returned t, db') => (Returned t, db')
  | (Raised (AuthHTTP c d), db') => (Raised (AuthHTTP c d), db')
  | (Raised e, db') => (Raised (AuthHTTP 500 ("Login failed: " +:+ str_auth_exn e)), db')
  end.

(** The [try] block of [demo_login]. *)
Definition demo_login_body (db : Db) : answer Token * Db :=
  match get_user_by_username A "demo" db with
  | None => (Raised (AuthHTTP 404 "Demo user not found"), db)
  | Some u => issue_token u db
  end.

(** [demo_login] has the [except Exception] clause only. *)
Definition demo_login (db : Db) : answer Token * Db :=
  match demo_login_body db with
  | (Returned t, db') => (Returned t, db')
  | (Raised e, db') =>
      (Raised (AuthHTTP 500 ("Demo login failed: " +:+ str_auth_exn e)), db')
  end.

Definition demo_profile : UserResponse :=
  {| resp_id := "demo"; resp_username := "Demo User";
     resp_email := "demo@sof-extractor.com"; resp_full_name := "Demo User";
     resp_is_active := true; resp_created_at := "2025-08-23 00:00:00";
     resp_last_login := Some "2025-08-23 00:00:00" |}.

(** [get_current_user_info], given the name the token resolved to; it has
    no [try] block. *)
Definition get_current_user_info (current_user : string) (db : Db) : answer UserResponse :=
  if String.eqb current_user "demo@sof-extractor.com" then Returned demo_profile
  else
    match get_user_by_username A current_user db with
    | None => Raised (AuthHTTP 404 "User not found")
    | Some u => Returned (user_response u)
    end.

End Authentication.

(** *** The script that creates the demo user *)

(** [users_db.json]: a dictionary from e-mail address to a dictionary. *)
Abbreviation users_file := (gmap string event).

Definition demo_user (demo_password_hash : string) : event :=
  [("username", VStr "demo"); ("email", VStr "demo@sof-extractor.com");
   ("hashed_password", VStr demo_password_hash)].

(** [create_demo_user.py], from the file as read ([None] when opening or
    parsing it fails, which the bare [except] turns into an empty dictionary)
    to the file as written. *)
Definition create_demo_user (demo_password_hash : string) (read : option users_file)
  : users_file :=
  <["demo@sof-extractor.com" := demo_user demo_password_hash]> (default ∅ read).

(** ** Vocabulary of the further properties *)

(** A value as the orchestrator stores it: [None] or a string. *)
Definition null_or_string (v : value) : bool :=
  match v with VNone | VStr _ => true | _ => false end.

Definition stored_event (ev : event) : Prop :=
  Forall (fun kv => null_or_string kv.2 = true) ev.

(** The upload object of a submitted file. *)
Definition to_upload (f : UploadFile) : FileUpload :=
  {| fu_content := uf_content f; fu_name := uf_filename f |}.

(** What every stored job looks like, by status. *)
Definition well_formed (id : string) (j : Job) : Prop :=
  job_id j = id /\ status j <> PENDING /\
  (status j = PROCESSING ->
     events j = None /\ error j = None /\ successful_files j = None) /\
  (status j = COMPLETED ->
     is_Some (events j) /\ is_Some (job_summary j) /\ is_Some (processed_at j) /\
     exists names, processed_files j = Some names /\
                   successful_files j = Some (length names)) /\
  (status j = FAILED -> is_Some (error j) /\ is_Some (failed_at j)).

(** What [get_result] shows of a job, against the job and its status view. *)
Definition view_matches (id : string) (j : Job) (view : ResultView) : Prop :=
  match view with
  | StillProcessing i _ total names =>
      status j = PROCESSING /\ i = id /\ total = total_files j /\ names = filenames j
  | JobFailed i err total names =>
      status j = FAILED /\ i = id /\ error j = Some err /\ total = total_files j
  | JobCompleted i names total processed successful evs sm laytime t =>
      status j = COMPLETED /\ i = id /\
      events j = Some evs /\ processed_files j = Some processed /\
      successful = length processed /\ successful <= total /\
      total = sv_total_files (status_view id j) /\
      successful = sv_successful_files (status_view id j)
  end.

(** A string without the separator used in upload paths. *)
Fixpoint no_underscore (s : string) : Prop :=
  match s with
  | EmptyString => True
  | String c s' => c <> "_"%char /\ no_underscore s'
  end.

(** Whether a [laytime_counts] cell of an extracted frame makes its event
    count as laytime-bearing once the cell has been normalised. *)
Definition cell_counts (E : Env) (v : value) : bool :=
  match v with
  | VNone | VNaN => false
  | VStr s => negb (String.eqb s "")
  | VTime t => negb (String.eqb (isoformat E t) "")
  | VNum _ | VBool _ => true
  end.

(** [str.isascii]: every character is below 128. *)
Definition ascii_char (c : ascii) : bool :=
  match c with Ascii _ _ _ _ _ _ _ b7 => negb b7 end.

Fixpoint isascii (s : string) : bool :=
  match s with
  | EmptyString => true
  | String c s' => ascii_char c && isascii s'
  end.

(** A string without a dot. *)
Fixpoint no_dot (s : string) : Prop :=
  match s with
  | EmptyString => True
  | String c s' => c <> "."%char /\ no_dot s'
  end.

(** The upload of the lone PDF followed by its run, as a sequence of requests. *)
Definition demo_trace : list request :=
  [ReqUpload [file_a_pdf] true;
   RunTask {| task_job_id := "job0";
              task_files := [("uploads/job0_0_a.pdf", "a.pdf")];
              task_enhanced := true |}].

(** Two files that share a name and differ in content. *)
Definition same_name_files : list UploadFile :=
  [file_a_pdf; {| uf_filename := "a.pdf"; uf_content := [x00; x00; x00] |}].

Definition same_name_uploaded : World :=
  world_after (upload_documents with_key same_name_files false) world0.

(** * Properties *)

(** ** The monad *)

Lemma bind_ok {A B} (m : M A) (k : A -> M B) w a w' :
  m w = (Ok a, w') -> bind m k w = k a w'.
Proof. intros H. unfold bind. now rewrite H. Qed.

Lemma bind_raise {A B} (m : M A) (k : A -> M B) w e w' :
  m w = (Raise e, w') -> bind m k w = (Raise e, w').
Proof. intros H. unfold bind. now rewrite H. Qed.

Lemma try_except_ok {A} (m : M A) h w a w' :
  m w = (Ok a, w') -> try_except m h w = (Ok a, w').
Proof. intros H. unfold try_except. now rewrite H. Qed.

Lemma try_except_raise {A} (m : M A) h w e w' :
  m w = (Raise e, w') -> try_except m h w = h e w'.
Proof. intros H. unfold try_except. now rewrite H. Qed.

Lemma for_each_app {A St} (body : St -> A -> M St) l1 l2 s w s1 w1 :
  for_each body l1 s w = (Ok s1, w1) ->
  for_each body (l1 ++ l2) s w = for_each body l2 s1 w1.
Proof.
  revert s w. induction l1 as [|x l1 IH]; intros s w H; simpl in *.
  - unfold ret in H. now inversion H.
  - unfold bind in *. destruct (body s x w) as [[s'|e] w']; [now apply IH | discriminate].
Qed.

(** ** The orchestrator gathers without raising and without writing *)

Section Gathering.

Context (E : Env).

Lemma read_and_dispatch_world flag n acc pf w :
  snd (read_and_dispatch E flag n acc pf w) = w.
Proof.
  unfold read_and_dispatch, bind, open_rb, dispatch_file, call, ret, raise.
  destruct (disk w !! pf.1); [|reflexivity].
  destruct (takes_enhanced_path _ _ _); [|reflexivity].
  destruct (negb _); [|reflexivity].
  now destruct (process_clicked_pdf_enhanced _ _ _ _).
Qed.

(** A file whose read or extraction raises is skipped: the lists are as they
    were before it, and the loop goes on from there. *)
Lemma process_file_skips flag n acc pf w e w' :
  read_and_dispatch E flag n acc pf w = (Raise e, w') ->
  process_file E flag n acc pf w = (Ok acc, w).
Proof.
  intros H. unfold process_file. rewrite (try_except_raise _ _ _ _ _ H).
  unfold ret. f_equal.
  pose proof (read_and_dispatch_world flag n acc pf w) as Hw. now rewrite H in Hw.
Qed.

Lemma process_file_keeps flag n acc pf w a w' :
  read_and_dispatch E flag n acc pf w = (Ok a, w') ->
  process_file E flag n acc pf w = (Ok a, w).
Proof.
  intros H. unfold process_file. rewrite (try_except_ok _ _ _ _ _ H). f_equal.
  pose proof (read_and_dispatch_world flag n acc pf w) as Hw. now rewrite H in Hw.
Qed.

Lemma process_file_returns flag n acc pf w :
  exists acc', process_file E flag n acc pf w = (Ok acc', w).
Proof.
  destruct (read_and_dispatch E flag n acc pf w) as [[a|e] w'] eqn:H.
  - exists a. eapply process_file_keeps; eauto.
  - exists acc. eapply process_file_skips; eauto.
Qed.

Lemma run_batch_world acc w : snd (run_batch E acc w) = w.
Proof.
  unfold run_batch, bind, call, ret.
  destruct (process_uploaded_files _ _) as [[|d docs]|e]; try reflexivity.
  destruct (negb _); [|reflexivity].
  now destruct (extract_events_and_summary _ _ _).
Qed.

Lemma process_batch_returns acc w :
  exists acc', process_batch E acc w = (Ok acc', w).
Proof.
  unfold process_batch. destruct (all_file_uploads acc) as [|u us] eqn:Hu.
  - now exists acc.
  - pose proof (run_batch_world acc w) as Hw. unfold try_except.
    destruct (run_batch E acc w) as [[a|e] w']; simpl in Hw; subst w'; eauto.
Qed.

Lemma loop_returns flag n l acc w :
  exists acc', for_each (process_file E flag n) l acc w = (Ok acc', w).
Proof.
  revert acc. induction l as [|pf l IH]; intros acc; simpl.
  - now exists acc.
  - destruct (process_file_returns flag n acc pf w) as [a Ha].
    rewrite (bind_ok _ _ _ _ _ Ha). apply IH.
Qed.

Lemma gather_returns files flag w :
  exists acc, gather E files flag w = (Ok acc, w).
Proof.
  unfold gather.
  destruct (loop_returns flag (length files) files (acc0) w) as [a Ha].
  rewrite (bind_ok _ _ _ _ _ Ha). apply process_batch_returns.
Qed.

(** *** Counting: what is processed or waiting never exceeds what was read *)

Lemma process_file_handled flag n acc pf w a :
  process_file E flag n acc pf w = (Ok a, w) ->
  handled a <= S (handled acc).
Proof.
  unfold process_file, try_except, read_and_dispatch, bind, open_rb, dispatch_file,
    call, ret, raise, handled.
  destruct (disk w !! pf.1); [|intros [= <-]; lia].
  destruct (takes_enhanced_path _ _ _).
  - destruct (negb _); [|intros [= <-]; lia].
    destruct (process_clicked_pdf_enhanced _ _ _ _); intros [= <-]; simpl;
      rewrite ?length_app; simpl; lia.
  - intros [= <-]. simpl. rewrite length_app. simpl. lia.
Qed.

Lemma loop_handled flag n l acc w a :
  for_each (process_file E flag n) l acc w = (Ok a, w) ->
  handled a <= length l + handled acc.
Proof.
  revert acc. induction l as [|pf l IH]; intros acc; simpl.
  - intros [= <-]. lia.
  - destruct (process_file_returns flag n acc pf w) as [a1 Ha1].
    rewrite (bind_ok _ _ _ _ _ Ha1). intros H.
    apply IH in H. apply process_file_handled in Ha1. lia.
Qed.

Ltac count_lengths :=
  simpl; repeat (rewrite ?length_app, ?length_map; simpl); lia.

Lemma process_batch_processed acc w a :
  process_batch E acc w = (Ok a, w) ->
  length (processed_filenames a) <= handled acc.
Proof.
  unfold process_batch, handled. destruct (all_file_uploads acc) as [|u us] eqn:Hu.
  - intros [= <-]. lia.
  - unfold try_except, run_batch, bind, call, ret. rewrite Hu.
    destruct (process_uploaded_files _ _) as [[|d docs]|e].
    + intros [= <-]. count_lengths.
    + destruct (negb _).
      * destruct (extract_events_and_summary _ _ _); intros [= <-]; count_lengths.
      * intros [= <-]. count_lengths.
    + intros [= <-]. lia.
Qed.

Lemma gather_processed files flag w acc :
  gather E files flag w = (Ok acc, w) ->
  length (processed_filenames acc) <= length files.
Proof.
  unfold gather.
  destruct (loop_returns flag (length files) files acc0 w) as [a Ha].
  rewrite (bind_ok _ _ _ _ _ Ha). intros H.
  apply process_batch_processed in H. apply loop_handled in Ha.
  unfold handled in *. simpl in Ha. lia.
Qed.

End Gathering.

(** ** Terminal states of an orchestration run *)

Section Orchestration.

Context (E : Env).

Lemma orchestrate_cases id files flag w j acc :
  jobs w !! id = Some j ->
  gather E files flag w = (Ok acc, w) ->
  orchestrate E id files flag w =
    if writable E (results_path E id)
    then (Ok tt, completed_world E id j (make_result_data (length files) acc) w)
    else (Raise (Exception ("cannot write " +:+ results_path E id)), w).
Proof.
  intros Hj Hg. unfold orchestrate. rewrite (bind_ok _ _ _ _ _ Hg).
  unfold write_file. destruct (writable E (results_path E id)); [|reflexivity].
  unfold bind, modify, get_job, now, put_job. simpl. now rewrite Hj.
Qed.

Lemma record_failure_stored id e w j :
  jobs w !! id = Some j ->
  record_failure E id e w = (Ok tt, failed_world E id j e w).
Proof.
  intros Hj. unfold record_failure, bind, get_job, now, put_job, modify.
  now rewrite Hj.
Qed.

(** When no submitted path can be read, nothing is gathered. *)
Lemma loop_all_unreadable flag n files acc w :
  Forall (fun pf => disk w !! pf.1 = None) files ->
  for_each (process_file E flag n) files acc w = (Ok acc, w).
Proof.
  induction 1 as [|pf l Hpf _ IH]; simpl; [reflexivity|].
  assert (process_file E flag n acc pf w = (Ok acc, w)) as Hs.
  { unfold process_file, try_except, read_and_dispatch, bind, open_rb. now rewrite Hpf. }
  now rewrite (bind_ok _ _ _ _ _ Hs).
Qed.

Lemma gather_all_unreadable flag files w :
  Forall (fun pf => disk w !! pf.1 = None) files ->
  gather E files flag w = (Ok acc0, w).
Proof.
  intros H. unfold gather.
  now rewrite (bind_ok _ _ _ _ _ (loop_all_unreadable flag _ files acc0 w H)).
Qed.

(** C1. A run of the orchestrator on a stored job ends in exactly one of two
    ways.  If its [try] block runs to the end, the job is COMPLETED, with
    [total_files] the number of files submitted and [successful_files] some
    count up to it, and the error fields are untouched.  If an exception [e]
    escapes the block, the job is FAILED with [error = str(e)] and a
    [failed_at] timestamp.  FAILED therefore arises only from such an escape;
    failures of individual files do not cause one: when not a single file can
    be read and the result file can be written, the job is COMPLETED with
    [successful_files = 0]. *)
Theorem completed_unless_exception_escapes id files flag w j :
  jobs w !! id = Some j ->
  match orchestrate E id files flag w with
  | (Ok _, w1) =>
      process_documents_with_sof_pipeline E id files flag w = (Ok tt, w1) /\
      exists j' k,
        jobs w1 !! id = Some j' /\ status j' = COMPLETED /\
        total_files j' = length files /\
        successful_files j' = Some k /\ k <= length files /\
        error j' = error j /\ failed_at j' = failed_at j
  | (Raise e, w1) =>
      exists j',
        jobs (world_after (process_documents_with_sof_pipeline E id files flag) w) !! id
          = Some j' /\
        status j' = FAILED /\
        error j' = Some (str_exn e) /\
        failed_at j' = Some (now_at E (clock w1))
  end
  /\ (forall j',
        jobs (world_after (process_documents_with_sof_pipeline E id files flag) w) !! id
          = Some j' ->
        status j' = FAILED -> status j <> FAILED ->
        exists e w1, orchestrate E id files flag w = (Raise e, w1))
  /\ (Forall (fun pf => disk w !! pf.1 = None) files ->
      writable E (results_path E id) = true ->
      exists j',
        jobs (world_after (process_documents_with_sof_pipeline E id files flag) w) !! id
          = Some j' /\
        status j' = COMPLETED /\ successful_files j' = Some 0).
Proof.
  intros Hj.
  destruct (gather_returns E files flag w) as [acc Hg].
  pose proof (orchestrate_cases id files flag w j acc Hj Hg) as Ho.
  pose proof (gather_processed E files flag w acc Hg) as Hle.
  unfold process_documents_with_sof_pipeline, world_after.
  destruct (writable E (results_path E id)) eqn:Hw.
  - rewrite Ho. rewrite (try_except_ok _ _ _ _ _ Ho). simpl. repeat split.
    + eexists _, _. rewrite lookup_insert_eq. repeat split; simpl; auto.
    + intros j'. rewrite lookup_insert_eq. intros [= <-]. discriminate.
    + intros Hall _. eexists. rewrite lookup_insert_eq. repeat split.
      rewrite (gather_all_unreadable flag files w Hall) in Hg. now inversion Hg.
  - rewrite Ho. rewrite (try_except_raise _ _ _ _ _ Ho).
    rewrite (record_failure_stored id _ w j Hj). simpl. repeat split.
    + eexists. rewrite lookup_insert_eq. repeat split.
    + intros _ _ _. eauto.
    + discriminate.
Qed.

End Orchestration.

(** ** Dispatch and failure isolation *)

Section Dispatch.

Context (E : Env).

Lemma add_uploads_nil acc : add_uploads [] acc = acc.
Proof. destruct acc. unfold add_uploads. simpl. now rewrite app_nil_r. Qed.

Lemma add_uploads_cons fu ups acc :
  add_uploads (fu :: ups) acc = add_uploads ups (add_upload fu acc).
Proof. unfold add_uploads, add_upload. simpl. now rewrite <- app_assoc. Qed.

Lemma takes_enhanced_path_spec flag filename n :
  takes_enhanced_path flag filename n = true <->
  flag = true /\ last_segment (lower filename) = "pdf" /\ n = 1.
Proof.
  unfold takes_enhanced_path.
  rewrite !andb_true_iff, String.eqb_eq, Nat.eqb_eq. tauto.
Qed.

Lemma dispatch_file_batch flag n acc filename content w :
  takes_enhanced_path flag filename n = false ->
  dispatch_file E flag n acc filename content w =
    (Ok (add_upload {| fu_content := content; fu_name := filename |} acc), w).
Proof. intros H. unfold dispatch_file. now rewrite H. Qed.

Lemma dispatch_file_enhanced flag n acc filename content w :
  takes_enhanced_path flag filename n = true ->
  dispatch_file E flag n acc filename content w =
    if String.eqb (GOOGLE_API_KEY E) "" then
      (Raise (Exception "Enhanced processing requires Google API key"), w)
    else
      match process_clicked_pdf_enhanced E content filename (GOOGLE_API_KEY E) with
      | Ok r => (Ok (add_processed [filename] (add_extraction E filename r acc)), w)
      | Raise e => (Raise e, w)
      end.
Proof.
  intros H. unfold dispatch_file. rewrite H.
  destruct (String.eqb (GOOGLE_API_KEY E) ""); simpl; [reflexivity|].
  unfold bind, call, ret. now destruct (process_clicked_pdf_enhanced _ _ _ _).
Qed.

(** When no file meets the enhanced test, the loop collects exactly the
    files it could read, in order, and processes none itself. *)
Lemma loop_all_batch flag n files acc w :
  Forall (fun pf => takes_enhanced_path flag pf.2 n = false) files ->
  for_each (process_file E flag n) files acc w
    = (Ok (add_uploads (readable_uploads E w files) acc), w).
Proof.
  intros H. revert acc. induction H as [|pf l Hpf _ IH]; intros acc; simpl.
  - now rewrite add_uploads_nil.
  - unfold readable_uploads in *. simpl. unfold as_upload at 1.
    assert (process_file E flag n acc pf w =
            (Ok match disk w !! pf.1 with
                | Some b => add_upload {| fu_content := blob_bytes E b; fu_name := pf.2 |} acc
                | None => acc
                end, w)) as Hs.
    { unfold process_file, try_except, read_and_dispatch, bind, open_rb.
      destruct (disk w !! pf.1); [|reflexivity].
      now rewrite dispatch_file_batch. }
    rewrite (bind_ok _ _ _ _ _ Hs). rewrite IH.
    destruct (disk w !! pf.1); [now rewrite add_uploads_cons | reflexivity].
Qed.

Lemma not_enhanced_when_several flag n (files : list (string * string)) :
  n <> 1 -> Forall (fun pf => takes_enhanced_path flag pf.2 n = false) files.
Proof.
  intros Hn. apply Forall_forall. intros pf _.
  destruct (takes_enhanced_path flag pf.2 n) eqn:H; [|reflexivity].
  apply takes_enhanced_path_spec in H. tauto.
Qed.

(** The loop over a one-file submission whose file meets the enhanced test:
    an unreadable file, a missing key and a raising extractor leave the lists
    empty; otherwise the file is extracted and counted, and nothing is
    collected for the batch. *)
Lemma loop_lone_enhanced flag pf w :
  takes_enhanced_path flag pf.2 1 = true ->
  for_each (process_file E flag 1) [pf] acc0 w
    = (Ok match disk w !! pf.1 with
          | None => acc0
          | Some b =>
              if String.eqb (GOOGLE_API_KEY E) "" then acc0
              else
                match process_clicked_pdf_enhanced E (blob_bytes E b) pf.2
                        (GOOGLE_API_KEY E) with
                | Ok r => add_processed [pf.2] (add_extraction E pf.2 r acc0)
                | Raise _ => acc0
                end
          end, w).
Proof.
  intros Ht. cbn [for_each].
  unfold bind at 1. unfold process_file, try_except, read_and_dispatch.
  unfold bind at 1. unfold open_rb.
  destruct (disk w !! pf.1) as [b|]; [|reflexivity].
  rewrite dispatch_file_enhanced by exact Ht.
  destruct (String.eqb (GOOGLE_API_KEY E) ""); [reflexivity|].
  destruct (process_clicked_pdf_enhanced E (blob_bytes E b) pf.2 (GOOGLE_API_KEY E));
    reflexivity.
Qed.

Lemma lone_member (pf : string * string) files :
  pf ∈ files -> (length files = 1 <-> files = [pf]).
Proof.
  intros Hin. split; [|intros ->; reflexivity].
  destruct files as [|x [|y l]]; try discriminate.
  intros _. apply list_elem_of_singleton in Hin. now subst.
Qed.

(** C4. For every file of a submission, the test that selects the enhanced
    path holds exactly when the flag is set, the file's extension is [pdf]
    and the file is the whole submission.  When it holds, the loop reads that
    file and hands its bytes and name to the single-document extractor: the
    file is counted with what was extracted from it, the batch set stays
    empty and the standard path is not run (an unreadable file, a missing key
    or a raising extractor leave all lists empty).  In every other case the
    loop ends with every file it could read in the batch set, in order, none
    processed on its own, and that set is what the standard path is run on;
    this holds in particular for every submission of another size than one,
    whatever the flag and the extensions. *)
Theorem enhanced_path_iff_lone_flagged_pdf flag files w :
  let n := length files in
  let loop := for_each (process_file E flag n) files acc0 w in
  (forall pf, pf ∈ files ->
     (takes_enhanced_path flag pf.2 n = true <->
      flag = true /\ last_segment (lower pf.2) = "pdf" /\ files = [pf]))
  /\ (forall pf,
        files = [pf] -> flag = true -> last_segment (lower pf.2) = "pdf" ->
        loop = (Ok match disk w !! pf.1 with
                   | None => acc0
                   | Some b =>
                       if String.eqb (GOOGLE_API_KEY E) "" then acc0
                       else
                         match process_clicked_pdf_enhanced E (blob_bytes E b) pf.2
                                 (GOOGLE_API_KEY E) with
                         | Ok r => add_processed [pf.2] (add_extraction E pf.2 r acc0)
                         | Raise _ => acc0
                         end
                   end, w)
        /\ gather E files flag w = loop
        /\ forall acc w', loop = (Ok acc, w') -> all_file_uploads acc = [])
  /\ (Forall (fun pf => ~ (flag = true /\ last_segment (lower pf.2) = "pdf" /\ n = 1))
        files ->
      loop = (Ok (add_uploads (readable_uploads E w files) acc0), w)
      /\ gather E files flag w
         = process_batch E (add_uploads (readable_uploads E w files) acc0) w)
  /\ (n <> 1 ->
      loop = (Ok (add_uploads (readable_uploads E w files) acc0), w)).
Proof.
  intros n loop. split; [|split; [|split]].
  - intros pf Hin. rewrite takes_enhanced_path_spec.
    unfold n. rewrite (lone_member pf files Hin). tauto.
  - intros pf -> Hflag Hext.
    assert (Ht : takes_enhanced_path flag pf.2 1 = true)
      by (apply takes_enhanced_path_spec; auto).
    pose proof (loop_lone_enhanced flag pf w Ht) as Hloop.
    assert (Hup : forall acc w', loop = (Ok acc, w') -> all_file_uploads acc = []).
    { intros acc w' Hr. unfold loop, n in Hr. cbn [length] in Hr.
      rewrite Hloop in Hr. injection Hr as <- _.
      destruct (disk w !! pf.1) as [b|]; [|reflexivity].
      destruct (String.eqb (GOOGLE_API_KEY E) ""); [reflexivity|].
      destruct (process_clicked_pdf_enhanced E (blob_bytes E b) pf.2 (GOOGLE_API_KEY E))
        as [[df sm]|e]; reflexivity. }
    split; [exact Hloop|]. split; [|exact Hup].
    unfold gather, bind. fold n. fold loop.
    destruct loop as [[acc|e] w'] eqn:Hl; [|reflexivity].
    unfold process_batch. now rewrite (Hup acc w' eq_refl).
  - intros Hall.
    assert (Hloop : loop = (Ok (add_uploads (readable_uploads E w files) acc0), w)).
    { apply loop_all_batch. eapply Forall_impl; [exact Hall|].
      intros pf Hpf. simpl in Hpf.
      destruct (takes_enhanced_path flag pf.2 n) eqn:Ht; [|reflexivity].
      apply takes_enhanced_path_spec in Ht. tauto. }
    split; [exact Hloop|].
    unfold gather, bind. fold n. fold loop. now rewrite Hloop.
  - intros Hn. apply loop_all_batch. now apply not_enhanced_when_several.
Qed.

Lemma file_fails_raises flag n w pf acc :
  file_fails E flag n w pf <->
  exists e, read_and_dispatch E flag n acc pf w = (Raise e, w).
Proof.
  unfold file_fails, read_and_dispatch, bind, open_rb.
  destruct (disk w !! pf.1) as [b|]; [|split; eauto].
  destruct (takes_enhanced_path flag pf.2 n) eqn:Ht.
  - rewrite dispatch_file_enhanced by exact Ht.
    destruct (String.eqb (GOOGLE_API_KEY E) "") eqn:Hk.
    + apply String.eqb_eq in Hk. split; eauto.
    + apply String.eqb_neq in Hk.
      destruct (process_clicked_pdf_enhanced _ _ _ _) as [r|e].
      * split; [intros [_ [?|[e ?]]]; congruence | intros [e ?]; congruence].
      * split; eauto.
  - rewrite dispatch_file_batch by exact Ht.
    split; [intros [? _]; congruence | intros [e ?]; congruence].
Qed.

Lemma batch_fails_raises acc w :
  batch_fails E acc <-> exists e, run_batch E acc w = (Raise e, w).
Proof.
  unfold batch_fails, run_batch, bind, call, ret.
  destruct (process_uploaded_files _ _) as [[|d docs]|e0].
  - split; [tauto | intros [e ?]; congruence].
  - destruct (String.eqb (GOOGLE_API_KEY E) "") eqn:Hk; simpl.
    + apply String.eqb_eq in Hk. split; [tauto | intros [e ?]; congruence].
    + apply String.eqb_neq in Hk.
      destruct (extract_events_and_summary _ _ _) as [r|e1].
      * split; [intros [_ [e ?]]; congruence | intros [e ?]; congruence].
      * split; eauto.
  - split; eauto.
Qed.

(** C2. Failures stay where they happen.
    (1) A file whose read or enhanced extraction raises is skipped: the
        accumulated lists, [processed_filenames] among them, are those before it.
    (2) The loop then continues: the whole loop gives what it gives on the
        submission without that file.
    (3) If the standard batch call raises, the lists are those before the
        batch: no batch file enters [processed_filenames], and what earlier
        files contributed stays.
    (4) Whatever happened to files or batch, a stored job whose result file
        can be written ends COMPLETED, counting the gathered names. *)
Theorem failures_are_isolated flag n w :
  (forall acc pf,
      file_fails E flag n w pf ->
      process_file E flag n acc pf w = (Ok acc, w))
  /\ (forall before pf after,
      file_fails E flag n w pf ->
      for_each (process_file E flag n) (before ++ pf :: after) acc0 w
        = for_each (process_file E flag n) (before ++ after) acc0 w)
  /\ (forall acc,
      batch_fails E acc ->
      process_batch E acc w = (Ok acc, w))
  /\ (forall id files j,
      jobs w !! id = Some j ->
      writable E (results_path E id) = true ->
      exists acc j',
        gather E files flag w = (Ok acc, w) /\
        jobs (world_after (process_documents_with_sof_pipeline E id files flag) w) !! id
          = Some j' /\
        status j' = COMPLETED /\
        processed_files j' = Some (processed_filenames acc) /\
        successful_files j' = Some (length (processed_filenames acc))).
Proof.
  repeat split.
  - intros acc pf Hfail. apply (file_fails_raises _ _ _ _ acc) in Hfail as [e He].
    eapply process_file_skips; eauto.
  - intros before pf after Hfail.
    destruct (loop_returns E flag n before acc0 w) as [acc Hacc].
    rewrite !(for_each_app _ _ _ _ _ _ _ Hacc). simpl.
    destruct (proj1 (file_fails_raises flag n w pf acc) Hfail) as [e He].
    now rewrite (bind_ok _ _ _ _ _ (process_file_skips E _ _ _ _ _ _ _ He)).
  - intros acc Hfail. apply (batch_fails_raises _ w) in Hfail as [e He].
    unfold process_batch.
    destruct (all_file_uploads acc); [reflexivity|].
    now rewrite (try_except_raise _ _ _ _ _ He).
  - intros id files j Hj Hw.
    destruct (gather_returns E files flag w) as [acc Hg].
    exists acc. eexists. split; [exact Hg|].
    unfold process_documents_with_sof_pipeline, world_after.
    pose proof (orchestrate_cases E id files flag w j acc Hj Hg) as Ho.
    rewrite Hw in Ho. rewrite (try_except_ok _ _ _ _ _ Ho). simpl.
    rewrite lookup_insert_eq. repeat split.
Qed.

End Dispatch.

(** ** The upload dispatcher, step by step *)

Section Upload.

Context (E : Env).

(** The validation loop writes files and touches nothing else. *)
Lemma validate_and_save_frame id st i f w :
  let w' := snd (validate_and_save E id st i f w) in
  jobs w' = jobs w /\ background_tasks w' = background_tasks w /\ clock w' = clock w.
Proof.
  unfold validate_and_save, write_file, bind, raise, modify, ret.
  destruct (negb _); [easy|]. destruct (Nat.ltb _ _); [easy|].
  destruct (writable E _); easy.
Qed.

Lemma for_enumerate_frame id files : forall i st w,
  let w' := snd (for_enumerate (validate_and_save E id) i files st w) in
  jobs w' = jobs w /\ background_tasks w' = background_tasks w /\ clock w' = clock w.
Proof.
  induction files as [|f files IH]; intros i st w; simpl; [easy|].
  unfold bind. pose proof (validate_and_save_frame id st i f w) as H. simpl in H.
  destruct (validate_and_save E id st i f w) as [[st'|e] w1]; simpl in *; [|easy].
  specialize (IH (S i) st' w1). simpl in IH.
  destruct H as (H1 & H2 & H3), IH as (I1 & I2 & I3). repeat split; congruence.
Qed.

Lemma upload_documents_cases files flag w :
  let id := uuid4_at E (clock w) in
  upload_documents E files flag w =
    match files with
    | [] => (Raise (HTTPException 400 "No files uploaded"), w)
    | _ :: _ =>
        match for_enumerate (validate_and_save E id) 0 files ([], []) (tick w) with
        | (Ok st, w1) => (Ok (upload_result id st.1 flag), created_world E id st flag w1)
        | (Raise (HTTPException c d), w1) => (Raise (HTTPException c d), w1)
        | (Raise (Exception m), w1) =>
            (Raise (HTTPException 500 ("Batch upload failed: " +:+ m)), w1)
        end
    end.
Proof.
  unfold upload_documents, try_except. destruct files as [|f files]; [reflexivity|].
  unfold bind at 1. unfold uuid4 at 1.
  unfold bind at 1.
  destruct (for_enumerate _ _ _ _ _) as [[st|[c d|m]] w1]; reflexivity.
Qed.

(** A rejected upload raises an [HTTPException] and leaves the job store and
    the task queue alone; an accepted one stores a PROCESSING job. *)
Lemma upload_documents_jobs files flag w :
  match upload_documents E files flag w with
  | (Ok r, w') =>
      exists names t,
        jobs w' = <[ur_job_id r := new_job (ur_job_id r) names flag t]> (jobs w)
  | (Raise e, w') =>
      (exists c d, e = HTTPException c d) /\
      jobs w' = jobs w /\ background_tasks w' = background_tasks w
  end.
Proof.
  rewrite upload_documents_cases. destruct files as [|f files]; [eauto|].
  pose proof (for_enumerate_frame (uuid4_at E (clock w)) (f :: files) 0 ([], []) (tick w))
    as H.
  destruct (for_enumerate _ _ _ _ _) as [[st|[c d|m]] w1]; simpl in H;
    destruct H as (Hj & Ht & Hc).
  - simpl. rewrite Hj. eauto.
  - eauto.
  - eauto.
Qed.

Lemma validate_and_save_rejects id st i f w :
  acceptable E f = false ->
  validate_and_save E id st i f w = (Raise (HTTPException 400 (rejection_detail E f)), w).
Proof.
  unfold acceptable, validate_and_save, rejection_detail.
  destruct (bool_decide _); simpl; [|reflexivity].
  destruct (Nat.ltb _ _); simpl; [reflexivity | discriminate].
Qed.

Lemma validate_and_save_accepts id st i f w :
  acceptable E f = true ->
  writable E (upload_path E id i (uf_filename f)) = true ->
  validate_and_save E id st i f w =
    (Ok (st.1 ++ [uf_filename f], st.2 ++ [(upload_path E id i (uf_filename f), uf_filename f)]),
     set_disk (fun d => <[upload_path E id i (uf_filename f) := Raw (uf_content f)]> d) w).
Proof.
  unfold acceptable, validate_and_save, write_file. intros [H1 H2]%andb_true_iff Hw.
  rewrite H1. apply negb_true_iff in H2. rewrite H2. simpl. now rewrite Hw.
Qed.

Lemma set_disk_set_disk f g w : set_disk f (set_disk g w) = set_disk (fun d => f (g d)) w.
Proof. reflexivity. Qed.

(** The loop over a prefix of acceptable files saves each of them. *)
Lemma for_enumerate_saves id pre : forall i rest st w,
  Forall (fun f => acceptable E f = true) pre ->
  (forall k f, pre !! k = Some f ->
               writable E (upload_path E id (i + k) (uf_filename f)) = true) ->
  for_enumerate (validate_and_save E id) i (pre ++ rest) st w =
  for_enumerate (validate_and_save E id) (i + length pre) rest
    (st.1 ++ saved_names pre, st.2 ++ saved_paths E id i pre)
    (set_disk (persist E id i pre) w).
Proof.
  induction pre as [|f pre IH]; intros i rest st w Hok Hw; simpl.
  - rewrite Nat.add_0_r, !app_nil_r. now destruct st, w.
  - inversion Hok as [|? ? Hf Hpre]; subst.
    assert (writable E (upload_path E id i (uf_filename f)) = true) as Hwf.
    { specialize (Hw 0 f eq_refl). now rewrite Nat.add_0_r in Hw. }
    rewrite (bind_ok _ _ _ _ _ (validate_and_save_accepts id st i f w Hf Hwf)).
    rewrite IH; [|exact Hpre|].
    + simpl. rewrite <- !app_assoc, Nat.add_succ_r. reflexivity.
    + intros k g Hk. specialize (Hw (S k) g Hk). now rewrite Nat.add_succ_r in Hw.
Qed.

(** C3 (as the code has it). When the first file that fails a check comes
    after some acceptable files, and those could be saved, the submission is
    rejected with a 400 error whose message names the failing file; no job
    entry is created, no task is scheduled and no job identifier is returned.
    The failing file and the files after it are not written, but each file
    before it has already been written to the upload directory and stays. *)
Theorem rejected_upload_creates_no_job pre bad post flag w :
  let id := uuid4_at E (clock w) in
  let request := upload_documents E (pre ++ bad :: post) flag in
  Forall (fun f => acceptable E f = true) pre ->
  acceptable E bad = false ->
  (forall k f, pre !! k = Some f ->
               writable E (upload_path E id k (uf_filename f)) = true) ->
  response_of request w = Raise (HTTPException 400 (rejection_detail E bad))
  /\ jobs (world_after request w) = jobs w
  /\ background_tasks (world_after request w) = background_tasks w
  /\ disk (world_after request w) = persist E id 0 pre (disk w).
Proof.
  intros id request Hpre Hbad Hw. unfold request, response_of, world_after.
  rewrite upload_documents_cases.
  destruct (pre ++ bad :: post) as [|f0 l0] eqn:Hl; [now destruct pre|].
  rewrite <- Hl. fold id.
  rewrite (for_enumerate_saves id pre 0 (bad :: post) ([], []) (tick w) Hpre Hw).
  simpl. rewrite (bind_raise _ _ _ _ _ (validate_and_save_rejects id _ _ bad _ Hbad)).
  simpl. auto.
Qed.

End Upload.

(** ** The export transformer *)

Section ExportTransformer.

Context (E : Env).

Lemma has_column_In c df : has_column c df = true <-> In c (columns df).
Proof.
  unfold has_column, label_is. rewrite existsb_exists. split.
  - intros (x & Hx & ->%String.eqb_eq). exact Hx.
  - intros H. exists c. split; [exact H | apply String.eqb_refl].
Qed.

Lemma filter_absent c cols :
  existsb (label_is c) cols = false -> List.filter (label_is_not c) cols = cols.
Proof.
  induction cols as [|x cols IH]; simpl; [reflexivity|].
  unfold label_is, label_is_not in *. intros [H1 H2]%orb_false_iff.
  rewrite H1. simpl. now rewrite IH.
Qed.

Lemma columns_drop_if_present c df :
  columns (drop_if_present c df) = List.filter (label_is_not c) (columns df).
Proof.
  unfold drop_if_present, has_column.
  destruct (existsb (label_is c) (columns df)) eqn:H; [reflexivity|].
  now rewrite filter_absent.
Qed.

Lemma filter_filter (p q : string -> bool) l :
  List.filter q (List.filter p l) = List.filter (fun x => p x && q x) l.
Proof.
  induction l as [|x l IH]; simpl; [reflexivity|].
  destruct (p x); simpl; [destruct (q x); now rewrite IH | exact IH].
Qed.

Lemma columns_drop_all removed : forall df,
  columns (fold_left (fun d col => drop_if_present col d) removed df)
    = List.filter (survives removed) (columns df).
Proof.
  induction removed as [|c removed IH]; intros df; simpl.
  - induction (columns df) as [|x l IHl]; simpl; [reflexivity | now rewrite <- IHl].
  - rewrite IH, columns_drop_if_present, filter_filter. reflexivity.
Qed.

Lemma columns_pruned df :
  columns (pruned df)
    = List.filter (survives ("laytime_counts" :: columns_to_remove)) (columns df).
Proof.
  unfold pruned. rewrite columns_drop_all, columns_drop_if_present, filter_filter.
  reflexivity.
Qed.

Lemma preferred_survive c :
  In c preferred_columns -> survives ("laytime_counts" :: columns_to_remove) c = true.
Proof.
  intros H. repeat (destruct H as [<-|H]; [reflexivity|]). destruct H.
Qed.

Lemma preferred_not_removed c :
  In c preferred_columns -> ~ In c columns_to_remove /\ c <> "laytime_counts".
Proof.
  intros H. repeat (destruct H as [<-|H]; [split; [|discriminate] |]); [..|destruct H];
    intros Hin; repeat (destruct Hin as [Hin|Hin]; [discriminate|]); destruct Hin.
Qed.

Lemma filter_label_pruned c cols :
  survives ("laytime_counts" :: columns_to_remove) c = true ->
  List.filter (label_is c)
    (List.filter (survives ("laytime_counts" :: columns_to_remove)) cols)
  = List.filter (label_is c) cols.
Proof.
  intros Hc. rewrite filter_filter. apply filter_ext. intros x. unfold label_is.
  destruct (String.eqb c x) eqn:Hx; [|now rewrite andb_false_r].
  apply String.eqb_eq in Hx. subst x. now rewrite Hc.
Qed.

Lemma has_column_pruned c df :
  In c preferred_columns -> has_column c (pruned df) = has_column c df.
Proof.
  intros Hc. unfold has_column. rewrite columns_pruned.
  pose proof (filter_label_pruned c (columns df) (preferred_survive c Hc)) as H.
  destruct (existsb (label_is c) (columns df)) eqn:H1.
  - apply existsb_exists in H1 as (x & Hx & Hl). apply existsb_exists. exists x.
    split; [|exact Hl]. apply filter_In. split; [exact Hx|].
    unfold label_is in Hl. apply String.eqb_eq in Hl. subst x.
    now apply preferred_survive.
  - apply not_true_iff_false. intros (x & Hx & Hl)%existsb_exists.
    apply filter_In in Hx as [Hx _].
    assert (existsb (label_is c) (columns df) = true) by (apply existsb_exists; eauto).
    congruence.
Qed.

Lemma final_columns_pruned df : final_columns (pruned df) = final_columns df.
Proof.
  unfold final_columns. apply filter_ext_in. intros c Hc. now apply has_column_pruned.
Qed.

Lemma flat_map_agree {A B} (f g : A -> list B) l :
  (forall a, In a l -> f a = g a) -> flat_map f l = flat_map g l.
Proof.
  induction l as [|a l IH]; simpl; [reflexivity|]. intros H.
  rewrite (H a) by auto. f_equal. apply IH. auto.
Qed.

(** The labels of the exported table, for any frame. *)
Lemma columns_normalize_columns df :
  columns (normalize_columns df)
    = flat_map (fun c => List.filter (label_is c) (columns df)) (final_columns df).
Proof.
  change (normalize_columns df) with (df_select (final_columns (pruned df)) (pruned df)).
  unfold df_select. cbn [columns]. rewrite final_columns_pruned, columns_pruned.
  apply flat_map_agree. intros c Hc. apply filter_label_pruned.
  apply preferred_survive. unfold final_columns in Hc. now apply filter_In in Hc as [Hc _].
Qed.

Lemma filter_label_NoDup c cols :
  NoDup cols -> In c cols -> List.filter (label_is c) cols = [c].
Proof.
  induction 1 as [|x l Hx Hl IH]; simpl; [intros []|].
  unfold label_is in *. intros [->|Hin].
  - rewrite String.eqb_refl. f_equal.
    assert (forall l', ~ In c l' -> List.filter (fun c' => String.eqb c c') l' = []) as Hno.
    { induction l' as [|y l' IH']; simpl; [reflexivity|]. intros Hn.
      destruct (String.eqb c y) eqn:Hy.
      - apply String.eqb_eq in Hy. subst. tauto.
      - apply IH'. tauto. }
    apply Hno. now rewrite <- list_elem_of_In.
  - destruct (String.eqb c x) eqn:Hy.
    + apply String.eqb_eq in Hy. subst. rewrite <- list_elem_of_In in Hin. tauto.
    + now apply IH.
Qed.

Lemma columns_normalize_columns_NoDup df :
  NoDup (columns df) -> columns (normalize_columns df) = final_columns df.
Proof.
  intros Hnd. rewrite columns_normalize_columns.
  assert (forall l, (forall c, In c l -> In c (columns df)) ->
                    flat_map (fun c => List.filter (label_is c) (columns df)) l = l) as H.
  { induction l as [|c l IH]; simpl; [reflexivity|]. intros Hl.
    rewrite filter_label_NoDup by auto. simpl. f_equal. apply IH. auto. }
  apply H. intros c Hc. unfold final_columns in Hc.
  apply filter_In in Hc as [_ Hc]. now apply has_column_In.
Qed.

Lemma In_columns_normalize_columns df c :
  In c (columns (normalize_columns df)) <-> In c preferred_columns /\ In c (columns df).
Proof.
  rewrite columns_normalize_columns, in_flat_map. unfold final_columns, label_is. split.
  - intros (x & [Hx1 Hx2]%filter_In & [Hc ->%String.eqb_eq]%filter_In). auto.
  - intros [H1 H2]. exists c. split; apply filter_In; split; auto.
    + now apply has_column_In.
    + apply String.eqb_refl.
Qed.

(** *** Frames built from event records have distinct labels *)

Lemma add_new_NoDup ks : forall seen, NoDup seen -> NoDup (add_new seen ks).
Proof.
  induction ks as [|k ks IH]; intros seen H; simpl; [exact H|].
  destruct (bool_decide (k ∈ seen)) eqn:Hk; [now apply IH|].
  apply bool_decide_eq_false in Hk. apply IH. apply NoDup_app. repeat split.
  - exact H.
  - intros x Hx ->%list_elem_of_singleton. tauto.
  - apply NoDup_singleton.
Qed.

Lemma union_keys_NoDup evs : NoDup (union_keys evs).
Proof.
  unfold union_keys.
  assert (forall seen, NoDup seen ->
            NoDup (fold_left (fun seen ev => add_new seen (dict_keys ev)) evs seen)) as H.
  { induction evs as [|ev evs IH]; intros seen Hs; simpl; [exact Hs|].
    apply IH. now apply add_new_NoDup. }
  apply H. constructor.
Qed.

(** *** Case analysis of a request *)

Lemma export_attempt_cases id sm evs fmt w :
  let out := normalize_columns (with_laytime E sm (DataFrame_of_records evs)) in
  export_attempt E id sm evs fmt w =
    if String.eqb (lower fmt) "csv" then
      if writable E (export_path E id "csv")
      then (Ok (csv_response E id),
            set_disk (fun d => <[export_path E id "csv" := CsvFile out]> d) w)
      else (Raise (export_failed (Exception ("cannot write " +:+ export_path E id "csv"))), w)
    else if String.eqb (lower fmt) "json" then
      if writable E (export_path E id "json")
      then (Ok (json_response E id),
            set_disk (fun d => <[export_path E id "json" := JsonFile (clean_events E out)]> d) w)
      else (Raise (export_failed (Exception ("cannot write " +:+ export_path E id "json"))), w)
    else (Raise (export_failed invalid_format), w).
Proof.
  unfold export_attempt, try_except, export_body, write_file.
  destruct (String.eqb (lower fmt) "csv").
  - destruct (writable E (export_path E id "csv")); reflexivity.
  - destruct (String.eqb (lower fmt) "json"); [|reflexivity].
    destruct (writable E (export_path E id "json")); reflexivity.
Qed.

Lemma export_data_cases id override fmt w :
  export_data E id override fmt w =
    match jobs w !! id with
    | None => (Raise (HTTPException 404 "Job not found"), w)
    | Some job =>
        if bool_decide (status job = COMPLETED) then
          match override with
          | _ :: _ => export_attempt E id (default ∅ (job_summary job)) override fmt w
          | [] =>
              match events job with
              | Some (ev :: evs) =>
                  export_attempt E id (default ∅ (job_summary job)) (ev :: evs) fmt w
              | Some [] => (Raise (HTTPException 404 "No events found"), w)
              | None => (Raise (Exception "KeyError: 'events'"), w)
              end
          end
        else (Raise (HTTPException 400 "Job not completed yet"), w)
    end.
Proof.
  unfold export_data, bind, get_world. destruct (jobs w !! id) as [job|]; [|reflexivity].
  destruct (bool_decide (status job = COMPLETED)); simpl; [|reflexivity].
  destruct override as [|o os]; simpl; [|reflexivity].
  destruct (events job) as [[|ev evs]|]; reflexivity.
Qed.

Lemma export_attempt_frame id sm evs fmt w :
  let w' := world_after (export_attempt E id sm evs fmt) w in
  jobs w' = jobs w /\ background_tasks w' = background_tasks w /\ clock w' = clock w.
Proof.
  unfold world_after. rewrite export_attempt_cases.
  repeat match goal with |- context [if ?b then _ else _] => destruct b end; easy.
Qed.

(** C7. On a COMPLETED job: a non-empty override list is what the export is
    computed from, the stored events playing no part (the request behaves
    the same whatever events the job holds); with an empty override the
    export is computed from the stored events, exactly as if they had been
    supplied; either way the job store after the export is the one before. *)
Theorem export_event_source id override fmt w job :
  jobs w !! id = Some job ->
  status job = COMPLETED ->
  jobs (world_after (export_data E id override fmt) w) = jobs w
  /\ (override <> [] ->
      export_data E id override fmt w
        = export_attempt E id (default ∅ (job_summary job)) override fmt w)
  /\ (override <> [] ->
      forall job2 w2,
        jobs w2 !! id = Some job2 -> status job2 = COMPLETED ->
        job_summary job2 = job_summary job -> disk w2 = disk w ->
        response_of (export_data E id override fmt) w2
          = response_of (export_data E id override fmt) w
        /\ disk (world_after (export_data E id override fmt) w2)
          = disk (world_after (export_data E id override fmt) w))
  /\ (override = [] ->
      forall evs, events job = Some evs ->
        export_data E id override fmt w = export_data E id evs fmt w
        /\ (evs <> [] ->
            export_data E id override fmt w
              = export_attempt E id (default ∅ (job_summary job)) evs fmt w)).
Proof.
  intros Hj Hs. split; [|split; [|split]].
  - unfold world_after. rewrite export_data_cases, Hj, Hs. simpl.
    destruct override as [|o os].
    + destruct (events job) as [[|ev evs]|]; try reflexivity.
      apply (export_attempt_frame id _ (ev :: evs) fmt w).
    + apply (export_attempt_frame id _ (o :: os) fmt w).
  - intros Hne. rewrite export_data_cases, Hj, Hs. simpl.
    destruct override; [contradiction | reflexivity].
  - intros Hne job2 w2 Hj2 Hs2 Hsm Hdisk.
    destruct override as [|o os]; [contradiction|].
    unfold response_of, world_after.
    rewrite !export_data_cases, Hj, Hs, Hj2, Hs2. simpl.
    rewrite Hsm, !export_attempt_cases.
    repeat match goal with |- context [if ?b then _ else _] => destruct b end;
      simpl; rewrite ?Hdisk; split; reflexivity.
  - intros -> evs Hev. split.
    + rewrite !export_data_cases, Hj, Hs. simpl. rewrite Hev.
      destruct evs; reflexivity.
    + intros Hne. rewrite export_data_cases, Hj, Hs. simpl. rewrite Hev.
      destruct evs; [contradiction | reflexivity].
Qed.

(** The export of an unsupported format, in general: the 400 raised for it
    is caught by the enclosing [except Exception] and leaves as a 500. *)
Lemma unsupported_format_leaves_as_500 id override fmt w job :
  jobs w !! id = Some job ->
  status job = COMPLETED ->
  (override <> [] \/ exists ev evs, events job = Some (ev :: evs)) ->
  String.eqb (lower fmt) "csv" = false ->
  String.eqb (lower fmt) "json" = false ->
  export_data E id override fmt w = (Raise (export_failed invalid_format), w).
Proof.
  intros Hj Hs Hev Hcsv Hjson. rewrite export_data_cases, Hj, Hs. simpl.
  destruct override as [|o os].
  - destruct Hev as [?|(ev & evs & ->)]; [contradiction|].
    now rewrite export_attempt_cases, Hcsv, Hjson.
  - now rewrite export_attempt_cases, Hcsv, Hjson.
Qed.

Lemma clean_events_keys df ev k :
  In ev (clean_events E df) -> In k (dict_keys ev) -> In k (columns df).
Proof.
  unfold clean_events, dict_keys. intros (r & <- & _)%in_map_iff.
  rewrite map_map. simpl. intros ((c & v) & <- & Hin)%in_map_iff.
  simpl. eapply in_combine_l; eauto.
Qed.

(** C6. A successful export writes the table obtained from the chosen events
    (the override, or the stored events when the override is empty), after
    the laytime recomputation when it applies.  Whatever fields those events
    had, every column of that table is a canonical one present in the
    recomputed frame, none is in the removal list or called [laytime_counts],
    and the columns come in the canonical order: for each canonical label
    present, in turn, the columns of the frame bearing it, which is the list
    of canonical labels present when the frame's labels are distinct, as
    they are in any frame built from event records. *)
Theorem export_columns_are_canonical id override fmt w r :
  response_of (export_data E id override fmt) w = Ok r ->
  exists job evs,
    jobs w !! id = Some job /\ evs <> [] /\
    (evs = override \/ (override = [] /\ events job = Some evs)) /\
    let frame := with_laytime E (default ∅ (job_summary job)) (DataFrame_of_records evs) in
    let table := normalize_columns frame in
    (disk (world_after (export_data E id override fmt) w) !! fr_path r
       = Some (CsvFile table) \/
     disk (world_after (export_data E id override fmt) w) !! fr_path r
       = Some (JsonFile (clean_events E table)) /\
     forall ev k, In ev (clean_events E table) -> In k (dict_keys ev) ->
                  In k (columns table))
    /\ (forall c, In c (columns table) ->
                  ~ In c columns_to_remove /\ c <> "laytime_counts")
    /\ (forall c, In c (columns table) <-> In c preferred_columns /\ In c (columns frame))
    /\ columns table
         = flat_map (fun c => List.filter (label_is c) (columns frame))
                    (List.filter (fun c => has_column c frame) preferred_columns)
    /\ (NoDup (columns frame) ->
        columns table = List.filter (fun c => has_column c frame) preferred_columns)
    /\ NoDup (columns (DataFrame_of_records evs)).
Proof.
  unfold response_of, world_after. rewrite export_data_cases.
  destruct (jobs w !! id) as [job|]; [|discriminate].
  destruct (bool_decide (status job = COMPLETED)); [|discriminate].
  assert (forall evs, evs <> [] ->
            (evs = override \/ (override = [] /\ events job = Some evs)) ->
            (export_attempt E id (default ∅ (job_summary job)) evs fmt w).1 = Ok r ->
            exists job0 evs0,
              Some job = Some job0 /\ evs0 <> [] /\
              (evs0 = override \/ (override = [] /\ events job0 = Some evs0)) /\
              let frame :=
                with_laytime E (default ∅ (job_summary job0)) (DataFrame_of_records evs0) in
              let table := normalize_columns frame in
              (disk (export_attempt E id (default ∅ (job_summary job)) evs fmt w).2
                 !! fr_path r = Some (CsvFile table) \/
               disk (export_attempt E id (default ∅ (job_summary job)) evs fmt w).2
                 !! fr_path r = Some (JsonFile (clean_events E table)) /\
               forall ev k, In ev (clean_events E table) -> In k (dict_keys ev) ->
                            In k (columns table))
              /\ (forall c, In c (columns table) ->
                            ~ In c columns_to_remove /\ c <> "laytime_counts")
              /\ (forall c, In c (columns table) <->
                            In c preferred_columns /\ In c (columns frame))
              /\ columns table
                   = flat_map (fun c => List.filter (label_is c) (columns frame))
                              (List.filter (fun c => has_column c frame) preferred_columns)
              /\ (NoDup (columns frame) ->
                  columns table
                    = List.filter (fun c => has_column c frame) preferred_columns)
              /\ NoDup (columns (DataFrame_of_records evs0))) as Hmain.
  { intros evs Hne Hsrc. rewrite export_attempt_cases. intros Hr.
    exists job, evs. split; [reflexivity|]. split; [exact Hne|]. split; [exact Hsrc|].
    intros frame table. split; [|split; [|split; [|split; [|split]]]].
    - destruct (String.eqb (lower fmt) "csv").
      + destruct (writable E (export_path E id "csv")); [|discriminate].
        injection Hr as <-. left. simpl. apply lookup_insert_eq.
      + destruct (String.eqb (lower fmt) "json"); [|discriminate].
        destruct (writable E (export_path E id "json")); [|discriminate].
        injection Hr as <-. right. split; [simpl; apply lookup_insert_eq|].
        intros ev k. apply clean_events_keys.
    - intros c Hc. apply preferred_not_removed.
      exact (proj1 (proj1 (In_columns_normalize_columns frame c) Hc)).
    - intros c. apply In_columns_normalize_columns.
    - apply columns_normalize_columns.
    - apply columns_normalize_columns_NoDup.
    - apply union_keys_NoDup. }
  destruct override as [|o os].
  - destruct (events job) as [[|ev evs]|] eqn:Hev; try discriminate.
    apply Hmain; [discriminate | right; split; reflexivity].
  - apply Hmain; [discriminate | now left].
Qed.

End ExportTransformer.

(** ** The three upload entry points *)

Section EntryPoints.

Context (E : Env).

(** On the job an upload has just stored, attaching the label cannot fail. *)
Lemma attach_batch_name_after_upload id label w1 j m :
  jobs w1 = <[id := j]> m ->
  attach_batch_name id label w1 =
    (Ok tt, if label_given label
            then set_jobs (fun js => alter (set_batch_name label) id js) w1
            else w1).
Proof.
  intros Hj. unfold attach_batch_name. destruct (label_given label); [|reflexivity].
  unfold bind, get_job, put_job, modify. rewrite Hj, lookup_insert_eq. simpl.
  unfold set_jobs. rewrite Hj, alter_insert_eq, insert_insert_eq. reflexivity.
Qed.

(** C9. The single-file entry point is the multi-file entry point on the
    one-element list; the batch-labelled entry point is the multi-file entry
    point behind the ten-file limit, followed by the attachment of the label
    (when one is given) to the created job, with the same response extended by
    the label and the batch size. *)
Theorem entry_points_share_one_operation :
  (forall file flag,
      upload_single_document E file flag = upload_documents E [file] flag)
  /\ (forall files flag label w,
      upload_batch_documents E files flag label w
        = labelled_submission E files flag label w).
Proof.
  split; [reflexivity|].
  intros files flag label w.
  unfold upload_batch_documents, labelled_submission, try_except.
  destruct files as [|f files].
  - rewrite upload_documents_cases. reflexivity.
  - destruct (Nat.ltb 10 (length (f :: files))); [reflexivity|].
    unfold bind at 1.
    pose proof (upload_documents_jobs E (f :: files) flag w) as H.
    destruct (upload_documents E (f :: files) flag w) as [[r|e] w1].
    + destruct H as (names & t & Hj). unfold bind.
      now rewrite (attach_batch_name_after_upload _ label w1 _ _ Hj).
    + destruct H as ((c & d & ->) & _). reflexivity.
Qed.

End EntryPoints.

(** ** The job store over the life of the service *)

Section Lifecycle.

Context (E : Env).

Lemma store_ok_insert w w' id j :
  store_ok w -> jobs w' = <[id := j]> (jobs w) -> counts_ok j -> store_ok w'.
Proof.
  intros Hw Hj Hc id' j'. rewrite Hj. destruct (decide (id = id')) as [->|Hne].
  - rewrite lookup_insert_eq. now intros [= <-].
  - rewrite lookup_insert_ne by exact Hne. apply Hw.
Qed.

Lemma store_ok_same w w' : store_ok w -> jobs w' = jobs w -> store_ok w'.
Proof. intros Hw Hj id j. rewrite Hj. apply Hw. Qed.

Lemma upload_documents_ok files flag w :
  store_ok w -> store_ok (world_after (upload_documents E files flag) w).
Proof.
  intros Hw. unfold world_after.
  pose proof (upload_documents_jobs E files flag w) as H.
  destruct (upload_documents E files flag w) as [[r|e] w1]; simpl.
  - destruct H as (names & t & Hj). eapply store_ok_insert; eauto. exact I.
  - destruct H as (_ & Hj & _). eapply store_ok_same; eauto.
Qed.

Lemma set_batch_name_counts label j : counts_ok (set_batch_name label j) <-> counts_ok j.
Proof. reflexivity. Qed.

Lemma attach_batch_name_ok id label w :
  store_ok w -> store_ok (world_after (attach_batch_name id label) w).
Proof.
  intros Hw. unfold world_after, attach_batch_name.
  destruct (label_given label); [|exact Hw].
  unfold bind, get_job, put_job, modify.
  destruct (jobs w !! id) as [j|] eqn:Hj; [|exact Hw].
  eapply store_ok_insert; [exact Hw | reflexivity |].
  apply set_batch_name_counts, (Hw id j Hj).
Qed.

Lemma upload_handler_world {A} e w : snd (upload_handler (A := A) e w) = w.
Proof. now destruct e. Qed.

Lemma upload_batch_documents_ok files flag label w :
  store_ok w -> store_ok (world_after (upload_batch_documents E files flag label) w).
Proof.
  intros Hw. unfold world_after, upload_batch_documents, try_except.
  destruct files as [|f files]; [exact Hw|].
  destruct (Nat.ltb 10 (length (f :: files))); [exact Hw|].
  unfold bind at 1.
  pose proof (upload_documents_ok (f :: files) flag w Hw) as H. unfold world_after in H.
  destruct (upload_documents E (f :: files) flag w) as [[r|e] w1]; simpl in H.
  - unfold bind.
    pose proof (attach_batch_name_ok (ur_job_id r) label w1 H) as H'.
    unfold world_after in H'.
    destruct (attach_batch_name (ur_job_id r) label w1) as [[u|e] w2]; simpl in H'.
    + exact H'.
    + now rewrite upload_handler_world.
  - now rewrite upload_handler_world.
Qed.

Lemma run_without_job id files flag w :
  jobs w !! id = None ->
  jobs (world_after (process_documents_with_sof_pipeline E id files flag) w) = jobs w.
Proof.
  intros Hj. unfold world_after, process_documents_with_sof_pipeline, try_except, orchestrate.
  destruct (gather_returns E files flag w) as [acc Hg].
  rewrite (bind_ok _ _ _ _ _ Hg). unfold write_file.
  destruct (writable E (results_path E id)).
  - unfold bind, modify, get_job, record_failure, bind, get_job.
    cbn [jobs set_disk fst snd]. rewrite Hj. cbn [jobs set_disk fst snd]. now rewrite Hj.
  - unfold raise, record_failure, bind, get_job. now rewrite Hj.
Qed.

Lemma process_documents_ok id files flag w :
  store_ok w ->
  store_ok (world_after (process_documents_with_sof_pipeline E id files flag) w).
Proof.
  intros Hw. destruct (jobs w !! id) as [j|] eqn:Hj.
  - destruct (gather_returns E files flag w) as [acc Hg].
    pose proof (orchestrate_cases E id files flag w j acc Hj Hg) as Ho.
    pose proof (gather_processed E files flag w acc Hg) as Hle.
    unfold world_after, process_documents_with_sof_pipeline.
    destruct (writable E (results_path E id)).
    + rewrite (try_except_ok _ _ _ _ _ Ho).
      eapply store_ok_insert; [exact Hw | reflexivity | exact Hle].
    + rewrite (try_except_raise _ _ _ _ _ Ho), (record_failure_stored E id _ w j Hj).
      eapply store_ok_insert; [exact Hw | reflexivity | apply (Hw id j Hj)].
  - eapply store_ok_same; [exact Hw | now apply run_without_job].
Qed.

Lemma export_data_jobs id override fmt w :
  jobs (world_after (export_data E id override fmt) w) = jobs w.
Proof.
  unfold world_after. rewrite export_data_cases.
  destruct (jobs w !! id) as [job|]; [|reflexivity].
  destruct (bool_decide _); [|reflexivity].
  destruct override as [|o os].
  - destruct (events job) as [[|ev evs]|]; try reflexivity.
    apply (export_attempt_frame E id _ (ev :: evs) fmt w).
  - apply (export_attempt_frame E id _ (o :: os) fmt w).
Qed.

Lemma get_status_world id w : world_after (get_status id) w = w.
Proof.
  unfold world_after, get_status, bind, get_world. now destruct (jobs w !! id).
Qed.

Lemma serve_ok w r : store_ok w -> store_ok (serve E w r).
Proof.
  intros Hw. destruct r; simpl.
  - now apply upload_documents_ok.
  - now apply upload_documents_ok.
  - now apply upload_batch_documents_ok.
  - now rewrite get_status_world.
  - eapply store_ok_same; [exact Hw | apply export_data_jobs].
  - now apply process_documents_ok.
Qed.

Lemma serve_all_ok rs : forall w, store_ok w -> store_ok (serve_all E w rs).
Proof.
  induction rs as [|r rs IH]; intros w Hw; simpl; [exact Hw|].
  apply IH. now apply serve_ok.
Qed.

(** C5. Start the service with an empty job store and let any sequence of
    requests and orchestration runs happen.  In every world so reached,
    every stored job whose [successful_files] key is present has
    [successful_files <= total_files]; and the counts the status endpoint
    reports for it (0 until the job is COMPLETED) satisfy the same bound. *)
Theorem successful_never_exceeds_total w0 rs id j :
  jobs w0 = ∅ ->
  jobs (serve_all E w0 rs) !! id = Some j ->
  counts_ok j
  /\ sv_successful_files (status_view id j) <= sv_total_files (status_view id j).
Proof.
  intros H0 Hj.
  assert (store_ok w0) as Hw0 by (intros i x; rewrite H0, lookup_empty; discriminate).
  pose proof (serve_all_ok rs w0 Hw0 id j Hj) as Hc. split; [exact Hc|].
  unfold status_view, counts_ok in *. simpl.
  destruct (bool_decide _); [|lia].
  destruct (successful_files j); simpl; lia.
Qed.

End Lifecycle.

(** ** The standard path without an API key *)

Section NoKey.

Context (E : Env).

Lemma readable_names w (files : list (string * string)) :
  Forall (fun pf => is_Some (disk w !! pf.1)) files ->
  map fu_name (readable_uploads E w files) = map snd files.
Proof.
  induction 1 as [|pf l [b Hb] _ IH]; [reflexivity|].
  unfold readable_uploads in *. simpl. unfold as_upload at 1. rewrite Hb. simpl.
  f_equal. exact IH.
Qed.

Lemma gather_without_key files flag w docs :
  GOOGLE_API_KEY E = "" ->
  all_to_batch flag w files ->
  process_uploaded_files E (readable_uploads E w files) = Ok docs ->
  gather E files flag w
    = (Ok (add_processed (map snd files) (add_uploads (readable_uploads E w files) acc0)), w).
Proof.
  intros Hk Hall Hdocs. unfold gather.
  assert (Forall (fun pf => takes_enhanced_path flag pf.2 (length files) = false) files)
    as Hb by (eapply Forall_impl; [exact Hall | now intros ? [_ ?]]).
  assert (Forall (fun pf => is_Some (disk w !! pf.1)) files)
    as Hr by (eapply Forall_impl; [exact Hall | now intros ? [? _]]).
  rewrite (bind_ok _ _ _ _ _ (loop_all_batch E flag _ files acc0 w Hb)).
  rewrite <- (readable_names w files Hr).
  unfold process_batch. simpl.
  destruct (readable_uploads E w files) as [|u us] eqn:Hu; [reflexivity|].
  unfold try_except, run_batch, bind, call, ret. simpl. rewrite Hdocs.
  destruct docs as [|d docs]; [reflexivity|]. rewrite Hk. reflexivity.
Qed.

End NoKey.

(** C10 (as the code has it). With no API key, every file readable and sent
    to the standard path, and the document loader returning normally, no
    extraction is made (the run is the same whatever the extractor would
    have answered) and yet every file is counted: once the result file is
    written, the job is COMPLETED with [successful_files = total_files], all
    the file names in [processed_files], no event and an empty summary. *)
Theorem keyless_batch_counts_every_file (E : Env) id files flag w j docs :
  GOOGLE_API_KEY E = "" ->
  all_to_batch flag w files ->
  process_uploaded_files E (readable_uploads E w files) = Ok docs ->
  jobs w !! id = Some j ->
  writable E (results_path E id) = true ->
  (exists j',
      jobs (world_after (process_documents_with_sof_pipeline E id files flag) w) !! id
        = Some j' /\
      status j' = COMPLETED /\
      processed_files j' = Some (map snd files) /\
      successful_files j' = Some (length files) /\
      total_files j' = length files /\
      events j' = Some [] /\
      job_summary j' = Some ∅ /\
      has_laytime_data j' = Some false)
  /\ (forall f,
      process_documents_with_sof_pipeline (with_extractor E f) id files flag w
        = process_documents_with_sof_pipeline E id files flag w).
Proof.
  intros Hk Hall Hdocs Hj Hw.
  pose proof (gather_without_key E files flag w docs Hk Hall Hdocs) as Hg. split.
  - pose proof (orchestrate_cases E id files flag w j _ Hj Hg) as Ho. rewrite Hw in Ho.
    unfold world_after, process_documents_with_sof_pipeline.
    rewrite (try_except_ok _ _ _ _ _ Ho). eexists. simpl. rewrite lookup_insert_eq.
    split; [reflexivity|]. simpl. rewrite length_map. repeat split.
  - intros f.
    pose proof (gather_without_key (with_extractor E f) files flag w docs Hk Hall Hdocs)
      as Hg'.
    unfold process_documents_with_sof_pipeline, orchestrate, try_except, bind.
    rewrite Hg, Hg'. reflexivity.
Qed.

(** * The service at work on concrete submissions *)

Module Demo.

Example one_pdf_job_created :
  jobs one_pdf_uploaded !! "job0" = Some (new_job "job0" ["a.pdf"] true "t1")
  /\ disk one_pdf_uploaded !! "uploads/job0_0_a.pdf" = Some (Raw [x00])
  /\ background_tasks one_pdf_uploaded
     = [{| task_job_id := "job0"; task_files := [("uploads/job0_0_a.pdf", "a.pdf")];
           task_enhanced := true |}].
Proof. vm_compute. repeat split. Qed.

(** Extensions are read after the last dot, in lower case; a name without a
    dot is its own extension. *)
Example extensions :
  dotted_extension "Report.Final.PDF" = ".pdf"
  /\ dotted_extension "pdf" = ".pdf"
  /\ dotted_extension "notes." = "."
  /\ takes_enhanced_path true "SCAN.PDF" 1 = true
  /\ takes_enhanced_path false "scan.pdf" 1 = false
  /\ takes_enhanced_path true "scan.pdf.txt" 1 = false.
Proof. repeat split. Qed.

(** A lone flagged PDF goes through the enhanced path. *)
Example lone_pdf_is_enhanced :
  exists j, jobs one_pdf_done !! "job0" = Some j
            /\ status j = COMPLETED
            /\ processed_files j = Some ["a.pdf"]
            /\ successful_files j = Some 1
            /\ (length <$> events j) = Some 2.
Proof. eexists. split; [vm_compute; reflexivity | vm_compute; repeat split]. Qed.

(** Two flagged PDFs both go to the standard path: the summary's source is
    the batch, and both names are counted. *)
Example two_pdfs_are_batched :
  let files := [("p/a.pdf", "a.pdf"); ("p/b.pdf", "b.pdf")] in
  let w := {| jobs := ∅; disk := {["p/a.pdf" := Raw [x00]; "p/b.pdf" := Raw [x00]]};
              background_tasks := []; clock := 0 |} in
  takes_enhanced_path true "a.pdf" 2 = false
  /\ takes_enhanced_path true "a.pdf" 1 = true
  /\ for_each (process_file with_key true 2) files acc0 w
     = (Ok (add_uploads [{| fu_content := [x00]; fu_name := "a.pdf" |};
                         {| fu_content := [x00]; fu_name := "b.pdf" |}] acc0), w).
Proof. vm_compute. repeat split. Qed.

Example job0_done_stored : jobs one_pdf_done !! "job0" = Some job0_done.
Proof. vm_compute. reflexivity. Qed.

(** *** C1: a run in which no file can be read still completes *)

Lemma job_completes_with_no_file_read :
  exists j',
    jobs (world_after (process_documents_with_sof_pipeline with_key "job0"
                         [("gone/a.pdf", "a.pdf")] true) one_pdf_uploaded) !! "job0"
      = Some j'
    /\ status j' = COMPLETED /\ successful_files j' = Some 0.
Proof.
  refine (proj2 (proj2 (completed_unless_exception_escapes with_key "job0"
            [("gone/a.pdf", "a.pdf")] true one_pdf_uploaded
            (new_job "job0" ["a.pdf"] true "t1") _)) _ _).
  - vm_compute. reflexivity.
  - constructor; [vm_compute; reflexivity | constructor].
  - vm_compute. reflexivity.
Defined.

(** An unwritable results directory is what makes a job FAILED. *)
Example unwritable_results_fail_the_job :
  exists j',
    jobs (world_after (process_documents_with_sof_pipeline read_only_results "job0"
                         [("uploads/job0_0_a.pdf", "a.pdf")] true) one_pdf_uploaded) !! "job0"
      = Some j'
    /\ status j' = FAILED
    /\ error j' = Some "cannot write /readonly/job0_results.json"
    /\ failed_at j' = Some "t2"
    /\ successful_files j' = None.
Proof. eexists. split; [vm_compute; reflexivity | vm_compute; repeat split]. Qed.

(** *** C2: an unreadable first file does not stop the second *)

Lemma unreadable_file_is_skipped :
  let w := {| jobs := ∅; disk := {["p/b.txt" := Raw [x00]]};
              background_tasks := []; clock := 0 |} in
  for_each (process_file with_key false 2) ([] ++ ("p/a.txt", "a.txt") :: [("p/b.txt", "b.txt")])
    acc0 w
  = (Ok (add_uploads [{| fu_content := [x00]; fu_name := "b.txt" |}] acc0), w).
Proof.
  intros w.
  rewrite (proj1 (proj2 (failures_are_isolated with_key false 2 w))
             [] ("p/a.txt", "a.txt") [("p/b.txt", "b.txt")]).
  - vm_compute. reflexivity.
  - vm_compute. exact I.
Defined.

(** Only the file that could be read is counted: one of two. *)
Example one_of_two_files_succeeds :
  let w := {| jobs := {["j" := new_job "j" ["a.txt"; "b.txt"] false "t0"]};
              disk := {["p/b.txt" := Raw [x00]]};
              background_tasks := []; clock := 1 |} in
  exists j',
    jobs (world_after (process_documents_with_sof_pipeline with_key "j"
                         [("p/a.txt", "a.txt"); ("p/b.txt", "b.txt")] false) w) !! "j"
      = Some j'
    /\ status j' = COMPLETED /\ total_files j' = 2
    /\ successful_files j' = Some 1 /\ processed_files j' = Some ["b.txt"].
Proof. eexists. split; [vm_compute; reflexivity | vm_compute; repeat split]. Qed.

(** A failing batch extraction leaves nothing counted, and the job completes. *)
Example failed_batch_counts_nothing :
  let w := {| jobs := {["j" := new_job "j" ["bad.txt"; "b.txt"] false "t0"]};
              disk := {["p/bad.txt" := Raw [x00]; "p/b.txt" := Raw [x00]]};
              background_tasks := []; clock := 1 |} in
  exists j',
    jobs (world_after (process_documents_with_sof_pipeline with_key "j"
                         [("p/bad.txt", "bad.txt"); ("p/b.txt", "b.txt")] false) w) !! "j"
      = Some j'
    /\ status j' = COMPLETED /\ total_files j' = 2
    /\ successful_files j' = Some 0 /\ events j' = Some [].
Proof. eexists. split; [vm_compute; reflexivity | vm_compute; repeat split]. Qed.

(** *** C3: the rejection comes after the first file was written *)

Lemma rejected_upload_leaves_a_file :
  response_of (upload_documents with_key [file_a_pdf; file_c_exe] true) world0
    = Raise (HTTPException 400 (unsupported_type_detail "c.exe"))
  /\ jobs (world_after (upload_documents with_key [file_a_pdf; file_c_exe] true) world0) = ∅
  /\ disk world0 !! "uploads/job0_0_a.pdf" = None
  /\ disk (world_after (upload_documents with_key [file_a_pdf; file_c_exe] true) world0)
       !! "uploads/job0_0_a.pdf" = Some (Raw (uf_content file_a_pdf)).
Proof. vm_compute. repeat split. Qed.

(** The same for a file over the size limit (5 bytes against 4). *)
Example oversized_upload_leaves_a_file :
  response_of (upload_documents with_key [file_a_pdf; file_big_pdf] true) world0
    = Raise (HTTPException 400 (too_large_detail with_key "big.PDF"))
  /\ disk (world_after (upload_documents with_key [file_a_pdf; file_big_pdf] true) world0)
       !! "uploads/job0_0_a.pdf" = Some (Raw (uf_content file_a_pdf)).
Proof. vm_compute. repeat split. Qed.

Lemma rejected_upload_keeps_earlier_files :
  response_of (upload_documents with_key ([file_a_pdf] ++ file_c_exe :: [file_b_txt]) true)
    world0 = Raise (HTTPException 400 (rejection_detail with_key file_c_exe))
  /\ jobs (world_after
             (upload_documents with_key ([file_a_pdf] ++ file_c_exe :: [file_b_txt]) true)
             world0) = jobs world0
  /\ background_tasks
       (world_after
          (upload_documents with_key ([file_a_pdf] ++ file_c_exe :: [file_b_txt]) true)
          world0) = background_tasks world0
  /\ disk (world_after
             (upload_documents with_key ([file_a_pdf] ++ file_c_exe :: [file_b_txt]) true)
             world0)
     = persist with_key (uuid4_at with_key (clock world0)) 0 [file_a_pdf] (disk world0).
Proof.
  refine (rejected_upload_creates_no_job with_key [file_a_pdf] file_c_exe [file_b_txt]
            true world0 _ _ _).
  - repeat constructor.
  - reflexivity.
  - intros [|k] f H; [injection H as <-; reflexivity | destruct k; discriminate].
Defined.

(** *** C4: the dispatch of a lone flagged PDF and of a pair *)

Lemma lone_flagged_pdf_is_extracted :
  for_each (process_file with_key true 1) [("uploads/job0_0_a.pdf", "a.pdf")] acc0
    one_pdf_uploaded
  = (Ok match process_clicked_pdf_enhanced with_key [x00] "a.pdf" "secret" with
        | Ok r => add_processed ["a.pdf"] (add_extraction with_key "a.pdf" r acc0)
        | Raise _ => acc0
        end, one_pdf_uploaded).
Proof.
  refine (proj1 (proj1 (proj2 (enhanced_path_iff_lone_flagged_pdf with_key true
                                 [("uploads/job0_0_a.pdf", "a.pdf")] one_pdf_uploaded))
                   ("uploads/job0_0_a.pdf", "a.pdf") _ _ _)); reflexivity.
Defined.

(** The lone PDF is counted with its two events; nothing waits for the batch. *)
Example lone_flagged_pdf_lists :
  exists acc,
    gather with_key [("uploads/job0_0_a.pdf", "a.pdf")] true one_pdf_uploaded
      = (Ok acc, one_pdf_uploaded)
    /\ processed_filenames acc = ["a.pdf"]
    /\ all_file_uploads acc = []
    /\ length (all_events_list acc) = 2.
Proof. eexists. split; [vm_compute; reflexivity | repeat split]. Qed.

(** Without the flag, the same lone PDF waits for the batch. *)
Example lone_unflagged_pdf_is_batched :
  for_each (process_file with_key false 1) [("uploads/job0_0_a.pdf", "a.pdf")] acc0
    one_pdf_uploaded
  = (Ok (add_uploads [{| fu_content := [x00]; fu_name := "a.pdf" |}] acc0),
     one_pdf_uploaded).
Proof. vm_compute. reflexivity. Qed.

Example pair_of_pdfs_is_batched :
  let files := [("p/a.pdf", "a.pdf"); ("p/b.pdf", "b.pdf")] in
  let w := {| jobs := ∅; disk := {["p/a.pdf" := Raw [x00]; "p/b.pdf" := Raw [x00]]};
              background_tasks := []; clock := 0 |} in
  for_each (process_file with_key true (length files)) files acc0 w
  = (Ok (add_uploads (readable_uploads with_key w files) acc0), w).
Proof.
  intros files w.
  apply loop_all_batch, not_enhanced_when_several. discriminate.
Qed.

(** *** C5: the counts of the processed job *)

Lemma processed_job_counts_are_bounded :
  counts_ok job0_done
  /\ sv_successful_files (status_view "job0" job0_done)
     <= sv_total_files (status_view "job0" job0_done).
Proof.
  refine (successful_never_exceeds_total with_key world0
            [ReqUpload [file_a_pdf] true;
             RunTask {| task_job_id := "job0";
                        task_files := [("uploads/job0_0_a.pdf", "a.pdf")];
                        task_enhanced := true |}]
            "job0" job0_done _ _).
  - reflexivity.
  - vm_compute. reflexivity.
Defined.

(** *** C6: the columns of an exported table *)

Lemma exported_csv_has_canonical_columns :
  exists job evs,
    jobs one_pdf_done !! "job0" = Some job /\ evs <> [] /\
    forall c,
      In c (columns (normalize_columns
                       (with_laytime with_key (default ∅ (job_summary job))
                          (DataFrame_of_records evs)))) ->
      ~ In c columns_to_remove /\ c <> "laytime_counts".
Proof.
  destruct (export_columns_are_canonical with_key "job0" [] "csv" one_pdf_done
              (csv_response with_key "job0"))
    as (job & evs & Hj & Hne & _ & _ & Hclean & _).
  - vm_compute. reflexivity.
  - exists job, evs. auto.
Defined.

(** The stored events carry [start], [laytime_counts] and [notes]; the laytime
    adapter adds [Laytime]; the table keeps the canonical three, in order. *)
Example exported_csv_columns :
  exists table,
    disk (world_after (export_data with_key "job0" [] "csv") one_pdf_done)
      !! "results/job0_export.csv" = Some (CsvFile table)
    /\ columns table = ["Event"; "Laytime"; "Filename"].
Proof. eexists. split; [vm_compute; reflexivity | reflexivity]. Qed.

(** Fields named like canonical ones in another case are removed, not renamed. *)
Example lower_case_fields_are_dropped :
  columns (normalize_columns
             (DataFrame_of_records
                [[("event", VStr "Arrival"); ("Date", VStr "2024-01-01");
                  ("filename", VStr "a.pdf"); ("Event", VStr "Arrival")]]))
  = ["Event"; "Date"].
Proof. vm_compute. reflexivity. Qed.

(** *** C7: the override list and the stored events *)

Lemma export_leaves_the_job_store :
  jobs (world_after
          (export_data with_key "job0" [[("Event", VStr "Manual entry")]] "json")
          one_pdf_done)
  = jobs one_pdf_done.
Proof.
  refine (proj1 (export_event_source with_key "job0" [[("Event", VStr "Manual entry")]]
                   "json" one_pdf_done job0_done _ _)).
  - vm_compute. reflexivity.
  - reflexivity.
Defined.

Example override_is_what_gets_exported :
  disk (world_after
          (export_data with_key "job0" [[("Event", VStr "Manual entry")]] "json")
          one_pdf_done) !! "results/job0_export.json"
  = Some (JsonFile [[("Event", VStr "Manual entry"); ("Laytime", VStr "1")]]).
Proof. vm_compute. reflexivity. Qed.

(** *** C8: what the caller receives for an unsupported format *)

(** C8, at a failing input. On the completed job, which stores two events, a
    request for [xml] is answered with status 500, not with the 400 raised for
    it inside the handler; the world, files included, is left as it was. *)
Theorem export_as_xml_answers_500 :
  status job0_done = COMPLETED
  /\ (length <$> events job0_done) = Some 2
  /\ export_data with_key "job0" [] "xml" one_pdf_done
     = (Raise (HTTPException 500
                 "Export failed: 400: Invalid export format. Use 'csv' or 'json'"),
        one_pdf_done).
Proof.
  split; [reflexivity|]. split; [reflexivity|].
  rewrite (unsupported_format_leaves_as_500 with_key "job0" [] "xml" one_pdf_done job0_done).
  - reflexivity.
  - vm_compute. reflexivity.
  - reflexivity.
  - right. eexists _, _. reflexivity.
  - reflexivity.
  - reflexivity.
Qed.

(** The supported formats are matched without regard to case. *)
Example export_format_ignores_case :
  response_of (export_data with_key "job0" [] "JSON") one_pdf_done
  = Ok (json_response with_key "job0").
Proof. vm_compute. reflexivity. Qed.

(** *** C10: the standard path without a key *)

Lemma keyless_text_file_is_counted :
  exists j',
    jobs (world_after (process_documents_with_sof_pipeline without_key "job0"
                         [("uploads/job0_0_b.txt", "b.txt")] false) one_txt_uploaded)
      !! "job0" = Some j'
    /\ status j' = COMPLETED
    /\ successful_files j' = Some 1
    /\ events j' = Some []
    /\ job_summary j' = Some ∅.
Proof.
  assert (all_to_batch false one_txt_uploaded [("uploads/job0_0_b.txt", "b.txt")]) as Hall.
  { constructor; [|constructor]. split; [|reflexivity].
    exists (Raw [x00; x00]). vm_compute. reflexivity. }
  destruct (proj1 (keyless_batch_counts_every_file without_key "job0"
                     [("uploads/job0_0_b.txt", "b.txt")] false one_txt_uploaded
                     (new_job "job0" ["b.txt"] false "t1") ["b.txt"]
                     eq_refl Hall eq_refl eq_refl eq_refl))
    as (j' & Hj & Hs & _ & Hn & _ & He & Hsm & _).
  exists j'. auto.
Defined.

(** With no key, every file read and sent to the standard path, but a
    document loader that raises, the job completes with none of its files
    counted: [successful_files] is 0 and [total_files] is 1. *)
Lemma keyless_batch_may_count_nothing :
  GOOGLE_API_KEY pipeline_missing = ""
  /\ all_to_batch false
       (world_after (upload_documents pipeline_missing [file_b_txt] false) world0)
       [("uploads/job0_0_b.txt", "b.txt")]
  /\ exists j,
       jobs (run_scheduled pipeline_missing
               (world_after (upload_documents pipeline_missing [file_b_txt] false) world0))
         !! "job0" = Some j
       /\ status j = COMPLETED
       /\ total_files j = 1
       /\ successful_files j = Some 0
       /\ processed_files j = Some [].
Proof.
  split; [reflexivity|]. split.
  - constructor; [|constructor]. split; [|reflexivity].
    exists (Raw [x00; x00]). vm_compute. reflexivity.
  - eexists. split; [vm_compute; reflexivity | vm_compute; repeat split].
Qed.

End Demo.

(** * Further properties of the service *)

(** ** What a run gathers *)

Section GatheredShapes.

Context (E : Env).

Lemma process_batch_shape acc w :
  exists acc',
    process_batch E acc w = (Ok acc', w) /\
    (acc' = acc
     \/ acc' = add_processed (map fu_name (all_file_uploads acc)) acc
     \/ exists r, acc' = add_processed (map fu_name (all_file_uploads acc))
                          (add_extraction E "batch_processed" r acc)).
Proof.
  unfold process_batch. destruct (all_file_uploads acc) as [|u us] eqn:Hu; [eauto|].
  unfold try_except, run_batch, bind, call, ret. rewrite Hu.
  destruct (process_uploaded_files E (u :: us)) as [[|d docs]|e]; eauto.
  destruct (negb _); eauto.
  destruct (extract_events_and_summary E _ _); eauto 6.
Qed.

Lemma readable_names_sublist w (files : list (string * string)) :
  sublist (map fu_name (readable_uploads E w files)) (map snd files).
Proof.
  induction files as [|pf files IH]; [constructor|].
  unfold readable_uploads in *. simpl. unfold as_upload at 1.
  destruct (disk w !! pf.1); simpl; [apply sublist_skip | apply sublist_cons]; exact IH.
Qed.

(** The four ways a gathering ends: nothing processed; the batch files
    counted without extraction; the batch files counted with one extraction;
    the lone file processed on the enhanced path. *)
Lemma gather_shape files flag w :
  exists acc ups,
    gather E files flag w = (Ok acc, w) /\
    sublist (map fu_name ups) (map snd files) /\
    (acc = add_uploads ups acc0
     \/ acc = add_processed (map fu_name ups) (add_uploads ups acc0)
     \/ (exists r, acc = add_processed (map fu_name ups)
                           (add_extraction E "batch_processed" r (add_uploads ups acc0)))
     \/ (exists pf r, files = [pf] /\ ups = [] /\
                      acc = add_processed [pf.2] (add_extraction E pf.2 r acc0))).
Proof.
  unfold gather.
  assert (forall ups, sublist (map fu_name ups) (map snd files) ->
            exists acc ups',
              process_batch E (add_uploads ups acc0) w = (Ok acc, w) /\
              sublist (map fu_name ups') (map snd files) /\
              (acc = add_uploads ups' acc0
               \/ acc = add_processed (map fu_name ups') (add_uploads ups' acc0)
               \/ (exists r, acc = add_processed (map fu_name ups')
                                     (add_extraction E "batch_processed" r
                                        (add_uploads ups' acc0)))
               \/ (exists pf r, files = [pf] /\ ups' = [] /\
                                acc = add_processed [pf.2] (add_extraction E pf.2 r acc0))))
    as Hbatch.
  { intros ups Hsub.
    destruct (process_batch_shape (add_uploads ups acc0) w) as (acc' & Hb & Hshape).
    exists acc', ups. split; [exact Hb|]. split; [exact Hsub|].
    simpl in Hshape. destruct Hshape as [->|[->|[r ->]]]; eauto 6. }
  destruct (decide (length files = 1)) as [H1|Hn].
  - destruct files as [|pf [|? ?]]; try discriminate. simpl.
    destruct (takes_enhanced_path flag pf.2 1) eqn:Ht.
    + unfold bind at 1. unfold process_file, try_except, read_and_dispatch, bind, open_rb.
      destruct (disk w !! pf.1) as [b|].
      * rewrite dispatch_file_enhanced by exact Ht.
        destruct (String.eqb (GOOGLE_API_KEY E) "").
        { exists acc0, []. split; [reflexivity|]. split; [apply sublist_nil_l | now left]. }
        destruct (process_clicked_pdf_enhanced E _ _ _) as [r|e].
        { exists (add_processed [pf.2] (add_extraction E pf.2 r acc0)), [].
          split; [reflexivity|]. split; [apply sublist_nil_l | right; right; right; eauto]. }
        { exists acc0, []. split; [reflexivity|]. split; [apply sublist_nil_l | now left]. }
      * exists acc0, []. split; [reflexivity|]. split; [apply sublist_nil_l | now left].
    + rewrite (bind_ok _ _ _ _ _ (loop_all_batch E flag 1 [pf] acc0 w
                 (Forall_cons_2 _ _ _ Ht (Forall_nil_2 _)))).
      apply Hbatch. apply readable_names_sublist.
  - rewrite (bind_ok _ _ _ _ _ (loop_all_batch E flag _ files acc0 w
               (not_enhanced_when_several flag _ files Hn))).
    apply Hbatch. apply readable_names_sublist.
Qed.

End GatheredShapes.

(** ** What a run changes *)

Section RunEffect.

Context (E : Env).

(** On a stored job a run returns normally, whichever way it ends. *)
Lemma run_effect id files flag w j :
  jobs w !! id = Some j ->
  exists acc,
    gather E files flag w = (Ok acc, w) /\
    process_documents_with_sof_pipeline E id files flag w =
      (Ok tt,
       if writable E (results_path E id)
       then completed_world E id j (make_result_data (length files) acc) w
       else failed_world E id j (Exception ("cannot write " +:+ results_path E id)) w).
Proof.
  intros Hj. destruct (gather_returns E files flag w) as [acc Hg]. exists acc.
  split; [exact Hg|].
  pose proof (orchestrate_cases E id files flag w j acc Hj Hg) as Ho.
  unfold process_documents_with_sof_pipeline.
  destruct (writable E (results_path E id)).
  - now rewrite (try_except_ok _ _ _ _ _ Ho).
  - rewrite (try_except_raise _ _ _ _ _ Ho). now apply record_failure_stored.
Qed.

(** Without the job entry the run can only write its result file. *)
Lemma run_without_job_world id files flag w :
  jobs w !! id = None ->
  exists acc,
    world_after (process_documents_with_sof_pipeline E id files flag) w =
      if writable E (results_path E id)
      then set_disk (fun d => <[results_path E id :=
                                  ResultsJson (make_result_data (length files) acc)]> d) w
      else w.
Proof.
  intros Hj. destruct (gather_returns E files flag w) as [acc Hg]. exists acc.
  unfold world_after, process_documents_with_sof_pipeline, try_except, orchestrate.
  rewrite (bind_ok _ _ _ _ _ Hg). unfold write_file.
  destruct (writable E (results_path E id)).
  - unfold bind, modify, get_job, record_failure, bind, get_job.
    cbn [jobs set_disk fst snd]. rewrite Hj. cbn [jobs set_disk fst snd]. now rewrite Hj.
  - unfold raise, record_failure, bind, get_job. now rewrite Hj.
Qed.

(** X1. A run changes no job but its own and schedules nothing; on disk it
    can only add or replace its own result file, so no upload is removed or
    rewritten; and in its own job it keeps the identifier, the user, the file
    names, the enhanced flag, the creation time and the batch label. *)
Theorem run_touches_only_its_job id files flag w :
  let w' := world_after (process_documents_with_sof_pipeline E id files flag) w in
  (forall other, other <> id -> jobs w' !! other = jobs w !! other)
  /\ background_tasks w' = background_tasks w
  /\ (forall path, path <> results_path E id -> disk w' !! path = disk w !! path)
  /\ (forall j', jobs w' !! id = Some j' ->
        exists j, jobs w !! id = Some j /\
                  job_id j' = job_id j /\ user j' = user j /\
                  filenames j' = filenames j /\
                  use_enhanced_processing j' = use_enhanced_processing j /\
                  created_at j' = created_at j /\ batch_name j' = batch_name j).
Proof.
  intros w'. subst w'. destruct (jobs w !! id) as [j|] eqn:Hj.
  - destruct (run_effect id files flag w j Hj) as (acc & _ & Hrun).
    unfold world_after. rewrite Hrun. simpl.
    destruct (writable E (results_path E id)); simpl.
    + repeat split.
      * intros other Hne. now rewrite lookup_insert_ne.
      * intros path Hne. now rewrite lookup_insert_ne.
      * intros j'. rewrite lookup_insert_eq. intros [= <-]. exists j. repeat split.
    + repeat split.
      * intros other Hne. now rewrite lookup_insert_ne.
      * intros j'. rewrite lookup_insert_eq. intros [= <-]. exists j. repeat split.
  - destruct (run_without_job_world id files flag w Hj) as (acc & ->).
    destruct (writable E (results_path E id)); simpl.
    + repeat split.
      * intros path Hne. now rewrite lookup_insert_ne.
      * intros j'. rewrite Hj. discriminate.
    + repeat split. intros j'. rewrite Hj. discriminate.
Qed.

(** X2. When a run completes (its result file could be written), the names
    in [processed_files] are names of the submission, in submission order and
    each used at most as often as submitted: a sublist of the submitted
    names, with [successful_files] its length. *)
Theorem processed_files_are_submitted_names id files flag w j :
  jobs w !! id = Some j ->
  writable E (results_path E id) = true ->
  exists j' names,
    jobs (world_after (process_documents_with_sof_pipeline E id files flag) w) !! id
      = Some j' /\
    processed_files j' = Some names /\
    sublist names (map snd files) /\
    successful_files j' = Some (length names).
Proof.
  intros Hj Hw. destruct (run_effect id files flag w j Hj) as (acc & Hg & Hrun).
  destruct (gather_shape E files flag w) as (acc' & ups & Hg' & Hsub & Hshape).
  rewrite Hg in Hg'. injection Hg' as <-.
  unfold world_after. rewrite Hrun, Hw. simpl. rewrite lookup_insert_eq.
  eexists _, _. split; [reflexivity|]. simpl. split; [reflexivity|]. split; [|reflexivity].
  destruct Hshape as [->|[->|[[r ->]|(pf & r & -> & -> & ->)]]]; simpl.
  - apply sublist_nil_l.
  - exact Hsub.
  - exact Hsub.
  - reflexivity.
Qed.

(** X3. When a run completes, the result file it wrote and the job entry
    carry the same data: events, summary, laytime flag, processed names and
    both counts; and the job points to that file. *)
Theorem result_file_agrees_with_job id files flag w j :
  jobs w !! id = Some j ->
  writable E (results_path E id) = true ->
  exists j' rd,
    jobs (world_after (process_documents_with_sof_pipeline E id files flag) w) !! id
      = Some j' /\
    disk (world_after (process_documents_with_sof_pipeline E id files flag) w)
      !! results_path E id = Some (ResultsJson rd) /\
    result_file j' = Some (results_path E id) /\
    events j' = Some (rd_events rd) /\
    job_summary j' = Some (rd_summary rd) /\
    has_laytime_data j' = Some (rd_has_laytime_data rd) /\
    processed_files j' = Some (rd_processed_files rd) /\
    total_files j' = rd_total_files rd /\
    successful_files j' = Some (rd_successful_files rd) /\
    rd_total_files rd = length files /\
    rd_successful_files rd = length (rd_processed_files rd).
Proof.
  intros Hj Hw. destruct (run_effect id files flag w j Hj) as (acc & Hg & Hrun).
  unfold world_after. rewrite Hrun, Hw. simpl. rewrite !lookup_insert_eq.
  eexists _, _. repeat split.
Qed.

(** X4. At most one extraction result is ever merged into a job: the
    enhanced path runs only on a lone file, and then the batch is empty.  So
    a completed job's summary is empty or that one result's summary, and it
    never has the [source_file] key the orchestrator adds on the way. *)
Theorem single_summary_without_source id files flag w j :
  jobs w !! id = Some j ->
  writable E (results_path E id) = true ->
  exists acc j' sm,
    gather E files flag w = (Ok acc, w) /\
    length (all_summaries acc) <= 1 /\
    jobs (world_after (process_documents_with_sof_pipeline E id files flag) w) !! id
      = Some j' /\
    job_summary j' = Some sm /\
    sm !! "source_file" = None /\
    (all_summaries acc = [] -> sm = ∅) /\
    (forall s, all_summaries acc = [s] -> sm = delete "source_file" s).
Proof.
  intros Hj Hw. destruct (run_effect id files flag w j Hj) as (acc & Hg & Hrun).
  destruct (gather_shape E files flag w) as (acc' & ups & Hg' & _ & Hshape).
  rewrite Hg in Hg'. injection Hg' as <-.
  assert (length (all_summaries acc) <= 1) as Hlen.
  { destruct Hshape as [->|[->|[[r ->]|(pf & r & _ & _ & ->)]]]; simpl; try lia;
      destruct (summary_truthy r.2); simpl; lia. }
  exists acc. unfold world_after. rewrite Hrun, Hw. simpl. rewrite lookup_insert_eq.
  eexists _, _. split; [exact Hg|]. split; [exact Hlen|]. split; [reflexivity|].
  simpl. split; [reflexivity|].
  destruct (all_summaries acc) as [|s [|s' rest]] eqn:Hs; simpl in *; try lia.
  - split; [apply lookup_empty|]. split; [reflexivity | intros s; discriminate].
  - assert (summary_truthy s = true) as Htruthy.
    { destruct Hshape as [->|[->|[[r ->]|(pf & r & _ & _ & ->)]]]; simpl in Hs;
        try discriminate;
        (destruct (summary_truthy r.2); simpl in Hs; [|discriminate]);
        injection Hs as <-; unfold summary_truthy; apply bool_decide_eq_true;
        intros Hempty;
        match type of Hempty with
        | <[?k := ?v]> ?m = ∅ => apply (insert_non_empty m k v Hempty)
        end. }
    rewrite Htruthy. split; [apply lookup_delete_eq|].
    split; [discriminate | now intros s0 [= <-]].
Qed.

End RunEffect.

(** ** Invariants of the job store *)

Section StoreInvariants.

Context (E : Env).

(** How the batch-labelled upload changes the job store. *)
Lemma upload_batch_documents_jobs files flag label w w' :
  world_after (upload_batch_documents E files flag label) w = w' ->
  jobs w' = jobs w
  \/ exists id names t,
       jobs w' = <[id := new_job id names flag t]> (jobs w)
       \/ jobs w' = <[id := set_batch_name label (new_job id names flag t)]> (jobs w).
Proof.
  intros <-. unfold world_after, upload_batch_documents, try_except.
  destruct files as [|f files]; [now left|].
  destruct (Nat.ltb 10 (length (f :: files))); [now left|].
  unfold bind.
  pose proof (upload_documents_jobs E (f :: files) flag w) as H.
  destruct (upload_documents E (f :: files) flag w) as [[r|e] w1].
  - destruct H as (names & t & Hj).
    rewrite (attach_batch_name_after_upload _ label w1 _ _ Hj).
    right. exists (ur_job_id r), names, t.
    destruct (label_given label); simpl; [right | left; exact Hj].
    now rewrite Hj, alter_insert_eq.
  - destruct H as ((c & d & ->) & Hj & _). now left.
Qed.

(** A property of stored jobs that creation, labelling, failure and
    completion each establish or keep holds of every job ever stored. *)
Lemma stored_jobs_satisfy (P : string -> Job -> Prop) :
  (forall id names flag t, P id (new_job id names flag t)) ->
  (forall id j label, P id j -> P id (set_batch_name label j)) ->
  (forall id j e t, P id j -> P id (failed_job j e t)) ->
  (forall id j files flag w acc t,
      P id j -> gather E files flag w = (Ok acc, w) ->
      P id (completed_job j (make_result_data (length files) acc) (results_path E id) t)) ->
  forall w0 rs, jobs w0 = ∅ ->
  forall id j, jobs (serve_all E w0 rs) !! id = Some j -> P id j.
Proof.
  intros Hnew Hlabel Hfail Hdone w0 rs H0.
  assert (forall w, (forall id j, jobs w !! id = Some j -> P id j) ->
                    forall r id j, jobs (serve E w r) !! id = Some j -> P id j) as Hstep.
  { intros w Hw r id j. destruct r as [files flag|file flag|files flag label|i|i o f|t]; simpl.
    - pose proof (upload_documents_jobs E files flag w) as H. unfold world_after.
      destruct (upload_documents E files flag w) as [[r|e] w1]; simpl.
      + destruct H as (names & t & ->).
        destruct (decide (ur_job_id r = id)) as [<-|Hne].
        * rewrite lookup_insert_eq. intros [= <-]. apply Hnew.
        * rewrite lookup_insert_ne by exact Hne. apply Hw.
      + destruct H as (_ & -> & _). apply Hw.
    - pose proof (upload_documents_jobs E [file] flag w) as H.
      unfold world_after, upload_single_document.
      destruct (upload_documents E [file] flag w) as [[r|e] w1]; simpl.
      + destruct H as (names & t & ->).
        destruct (decide (ur_job_id r = id)) as [<-|Hne].
        * rewrite lookup_insert_eq. intros [= <-]. apply Hnew.
        * rewrite lookup_insert_ne by exact Hne. apply Hw.
      + destruct H as (_ & -> & _). apply Hw.
    - destruct (upload_batch_documents_jobs files flag label w _ eq_refl)
        as [->|(i & names & t & [->| ->])]; [apply Hw | |];
        (destruct (decide (i = id)) as [<-|Hne];
         [rewrite lookup_insert_eq; intros [= <-]
         |rewrite lookup_insert_ne by exact Hne; apply Hw]).
      + apply Hnew.
      + apply Hlabel, Hnew.
    - rewrite get_status_world. apply Hw.
    - rewrite export_data_jobs. apply Hw.
    - unfold run_task. destruct (jobs w !! task_job_id t) as [j0|] eqn:Hj0.
      + destruct (run_effect E (task_job_id t) (task_files t) (task_enhanced t) w j0 Hj0)
          as (acc & Hg & Hrun).
        unfold world_after. rewrite Hrun. simpl.
        destruct (writable E (results_path E (task_job_id t))); simpl;
          (destruct (decide (task_job_id t = id)) as [<-|Hne];
           [rewrite lookup_insert_eq; intros [= <-]
           |rewrite lookup_insert_ne by exact Hne; apply Hw]).
        * eapply Hdone; eauto.
        * apply Hfail. eauto.
      + rewrite (run_without_job E _ _ _ _ Hj0). apply Hw. }
  revert w0 H0.
  assert (forall w, (forall id j, jobs w !! id = Some j -> P id j) ->
                    forall id j, jobs (serve_all E w rs) !! id = Some j -> P id j) as Hall.
  { induction rs as [|r rs IH]; intros w Hw; simpl; [exact Hw|].
    apply IH. intros id j. now apply Hstep. }
  intros w0 H0. apply Hall. intros id j. rewrite H0, lookup_empty. discriminate.
Qed.

Lemma normalize_value_stored v : null_or_string (normalize_value E v) = true.
Proof. unfold normalize_value. now destruct v. Qed.

Lemma normalize_event_stored ev : stored_event (normalize_event E ev).
Proof.
  unfold stored_event, normalize_event. apply Forall_map.
  apply Forall_forall. intros kv _. apply normalize_value_stored.
Qed.

Lemma add_extraction_stored src r acc :
  Forall stored_event (all_events_list acc) ->
  Forall stored_event (all_events_list (add_extraction E src r acc)).
Proof.
  intros H. unfold add_extraction. simpl. destruct (negb _); [|exact H].
  apply Forall_app. split; [exact H|]. apply Forall_map.
  apply Forall_forall. intros ev _. apply normalize_event_stored.
Qed.

Lemma gathered_events_stored files flag w acc :
  gather E files flag w = (Ok acc, w) -> Forall stored_event (all_events_list acc).
Proof.
  intros Hg. destruct (gather_shape E files flag w) as (acc' & ups & Hg' & _ & Hshape).
  rewrite Hg in Hg'. injection Hg' as <-.
  destruct Hshape as [->|[->|[[r ->]|(pf & r & _ & _ & ->)]]]; simpl;
    try (destruct (negb _)); try constructor;
    apply Forall_map, Forall_forall; intros ev _; apply normalize_event_stored.
Qed.

(** X5. From an empty job store on, whatever requests and runs happen, every
    value of every stored event is [None] or a string: numbers, booleans and
    timestamps are only ever stored in their string form, missing cells as
    [None]. *)
Theorem stored_event_values_are_null_or_string w0 rs id j evs :
  jobs w0 = ∅ ->
  jobs (serve_all E w0 rs) !! id = Some j ->
  events j = Some evs ->
  Forall stored_event evs.
Proof.
  intros H0 Hj.
  apply (stored_jobs_satisfy
           (fun _ j => forall evs, events j = Some evs -> Forall stored_event evs))
    with (w0 := w0) (rs := rs) (id := id); try assumption.
  - intros ? ? ? ? ? [=].
  - intros ? ? ? H. exact H.
  - intros ? ? ? ? H. exact H.
  - intros i j0 files flag w acc t _ Hg evs' [= <-]. simpl.
    eapply gathered_events_stored; eauto.
Qed.

Lemma well_formed_stored w0 rs id j :
  jobs w0 = ∅ -> jobs (serve_all E w0 rs) !! id = Some j -> well_formed id j.
Proof.
  intros H0 Hj.
  eapply (stored_jobs_satisfy well_formed); [| | | | exact H0 | exact Hj].
  - intros i names flag t. unfold well_formed. simpl.
    repeat split; try discriminate.
  - intros i j0 label H. exact H.
  - intros i j0 e t (Hid & _). unfold well_formed. simpl.
    repeat split; try discriminate; try eauto.
  - intros i j0 files flag w acc t (Hid & _) _. unfold well_formed. simpl.
    repeat split; try discriminate; eauto.
Qed.

(** X6. From an empty job store on, every stored job is well formed (stored
    under its own identifier, never PENDING, with the keys its status needs),
    so [get_result] on a stored job never fails on a missing key: it answers,
    without changing anything, with the view of the job's status, whose counts
    agree with the stored job and with what [get_status] reports, and
    [successful_files] is the number of [processed_files] and at most
    [total_files]. *)
Theorem stored_jobs_can_be_read w0 rs id j :
  jobs w0 = ∅ ->
  jobs (serve_all E w0 rs) !! id = Some j ->
  well_formed id j
  /\ exists view,
       get_result id (serve_all E w0 rs) = (Ok view, serve_all E w0 rs)
       /\ view_matches id j view.
Proof.
  intros H0 Hj. pose proof (well_formed_stored w0 rs id j H0 Hj) as Hwf.
  split; [exact Hwf|].
  assert (store_ok w0) as Hs0 by (intros i x; rewrite H0, lookup_empty; discriminate).
  pose proof (serve_all_ok E rs w0 Hs0 id j Hj) as Hc.
  destruct Hwf as (Hid & Hpend & Hproc & Hdone & Hfail).
  unfold get_result, bind, get_world. rewrite Hj.
  destruct (status j) eqn:Hst.
  - contradiction.
  - eexists. split; [reflexivity|]. simpl. auto.
  - destruct (Hdone eq_refl) as ([evs Hev] & _ & [t Ht] & names & Hp & Hs).
    rewrite Hev, Ht. eexists. split; [reflexivity|].
    unfold view_matches, status_view, counts_ok in *. simpl.
    rewrite Hst, Hp, Hs in *. simpl. repeat split; auto.
  - destruct (Hfail eq_refl) as ([err Herr] & _). rewrite Herr.
    eexists. split; [reflexivity|]. simpl. auto.
Qed.

End StoreInvariants.

(** ** Accepted uploads *)

Section AcceptedUploads.

Context (E : Env).

(** *** Upload paths do not collide *)

Lemma append_cons x (a b : string) : String x a +:+ b = String x (a +:+ b).
Proof. reflexivity. Qed.

Lemma append_empty (b : string) : "" +:+ b = b.
Proof. reflexivity. Qed.

Lemma append_assoc_string (a b c : string) : (a +:+ b) +:+ c = a +:+ (b +:+ c).
Proof.
  induction a as [|x a IH]; rewrite ?append_cons, ?append_empty; [reflexivity|].
  now rewrite IH.
Qed.

Lemma append_cancel_l (p a b : string) : p +:+ a = p +:+ b -> a = b.
Proof.
  induction p as [|x p IH]; rewrite ?append_cons, ?append_empty; [auto|].
  intros [= H]. auto.
Qed.

Lemma no_underscore_app a b : no_underscore a -> no_underscore b -> no_underscore (a +:+ b).
Proof.
  induction a as [|x a IH]; rewrite ?append_cons, ?append_empty; [auto|].
  simpl. intros [? ?] ?. auto.
Qed.

Lemma pretty_N_char_no_underscore x : pretty_N_char x <> "_"%char.
Proof. unfold pretty_N_char. repeat case_match; discriminate. Qed.

Lemma pretty_N_go_digits x : forall s,
  exists d, pretty_N_go x s = d +:+ s /\ no_underscore d.
Proof.
  induction (N.lt_wf_0 x) as [x _ IH]; intros s.
  assert (x = 0 \/ 0 < x)%N as [->|Hpos] by lia.
  - exists "". now rewrite pretty_N_go_0.
  - rewrite pretty_N_go_step by exact Hpos.
    destruct (IH (x `div` 10)%N (N.div_lt x 10 Hpos eq_refl)
                (String (pretty_N_char (x `mod` 10)) s)) as (d & -> & Hd).
    exists (d +:+ String (pretty_N_char (x `mod` 10)) "").
    split; [now rewrite append_assoc_string|].
    apply no_underscore_app; [exact Hd|]. simpl.
    split; [apply pretty_N_char_no_underscore | exact I].
Qed.

Lemma pretty_nat_no_underscore (n : nat) : no_underscore (pretty n).
Proof.
  unfold pretty, pretty_nat, pretty, pretty_N. case_decide.
  - simpl. split; [discriminate | exact I].
  - destruct (pretty_N_go_digits (N.of_nat n) "") as (d & -> & Hd).
    apply no_underscore_app; [exact Hd | exact I].
Qed.

Lemma split_at_underscore a : forall b x y,
  no_underscore a -> no_underscore b ->
  a +:+ "_" +:+ x = b +:+ "_" +:+ y -> a = b /\ x = y.
Proof.
  induction a as [|c a IH]; intros [|c' b] x y Ha Hb;
    rewrite ?append_cons, ?append_empty; simpl in Ha, Hb.
  - intros [= ->]. auto.
  - intros [= <- _]. tauto.
  - intros [= -> _]. tauto.
  - intros [= -> H]. destruct (IH b x y) as [-> ->]; tauto.
Qed.

(** The index and the file name can be read back from an upload path. *)
Lemma upload_path_inj id i name i' name' :
  upload_path E id i name = upload_path E id i' name' -> i = i' /\ name = name'.
Proof.
  unfold upload_path. intros H.
  do 4 apply append_cancel_l in H.
  apply split_at_underscore in H as [Hi Hn]; try apply pretty_nat_no_underscore.
  split; [now apply (inj pretty) | exact Hn].
Qed.

Lemma persist_lookup_other id files : forall i d path,
  (forall k f, files !! k = Some f -> upload_path E id (i + k) (uf_filename f) <> path) ->
  persist E id i files d !! path = d !! path.
Proof.
  induction files as [|f files IH]; intros i d path Hne; simpl; [reflexivity|].
  rewrite IH.
  - apply lookup_insert_ne. specialize (Hne 0 f eq_refl). now rewrite Nat.add_0_r in Hne.
  - intros k g Hk. specialize (Hne (S k) g Hk). now rewrite Nat.add_succ_r in Hne.
Qed.

Lemma persist_lookup id files : forall i d k f,
  files !! k = Some f ->
  persist E id i files d !! upload_path E id (i + k) (uf_filename f)
    = Some (Raw (uf_content f)).
Proof.
  induction files as [|f0 files IH]; intros i d k f Hk; [discriminate|].
  destruct k as [|k]; simpl in *.
  - injection Hk as ->. rewrite Nat.add_0_r, persist_lookup_other.
    + apply lookup_insert_eq.
    + intros k g _ Heq. apply upload_path_inj in Heq as [Heq _]. lia.
  - rewrite Nat.add_succ_r. now apply (IH (S i)).
Qed.

(** *** What the validation loop has done when it returns *)

Lemma validate_and_save_ok id st i f w st' w1 :
  validate_and_save E id st i f w = (Ok st', w1) ->
  acceptable E f = true /\ writable E (upload_path E id i (uf_filename f)) = true.
Proof.
  unfold validate_and_save, acceptable, write_file, bind, raise, modify, ret.
  destruct (bool_decide _); simpl; [|discriminate].
  destruct (Nat.ltb _ _); simpl; [discriminate|].
  destruct (writable E _); [auto | discriminate].
Qed.

Lemma for_enumerate_ok id files : forall i st w st' w1,
  for_enumerate (validate_and_save E id) i files st w = (Ok st', w1) ->
  Forall (fun f => acceptable E f = true) files
  /\ st' = (st.1 ++ saved_names files, st.2 ++ saved_paths E id i files)
  /\ w1 = set_disk (persist E id i files) w.
Proof.
  induction files as [|f files IH]; intros i st w st' w1; simpl.
  - intros [= <- <-]. rewrite !app_nil_r. split; [constructor|]. now destruct st, w.
  - unfold bind. destruct (validate_and_save E id st i f w) as [[st1|e] w2] eqn:Hf;
      [|discriminate].
    intros Hrest. destruct (validate_and_save_ok _ _ _ _ _ _ _ Hf) as [Hacc Hw].
    rewrite (validate_and_save_accepts E id st i f w Hacc Hw) in Hf.
    injection Hf as <- <-.
    apply IH in Hrest as (Hall & -> & ->). simpl.
    rewrite <- !app_assoc. repeat split. now constructor.
Qed.

Lemma as_upload_saved id files : forall i d w,
  disk w = d ->
  (forall k f, files !! k = Some f ->
               d !! upload_path E id (i + k) (uf_filename f) = Some (Raw (uf_content f))) ->
  readable_uploads E w (saved_paths E id i files) = map to_upload files.
Proof.
  induction files as [|f files IH]; intros i d w Hd Hlook; [reflexivity|].
  unfold readable_uploads in *. simpl. unfold as_upload at 1. simpl.
  pose proof (Hlook 0 f eq_refl) as H0. rewrite Nat.add_0_r in H0.
  rewrite Hd, H0. simpl. f_equal.
  apply (IH (S i) d w Hd). intros k g Hk. specialize (Hlook (S k) g Hk).
  now rewrite Nat.add_succ_r in Hlook.
Qed.

(** X7. An upload that is answered with a job identifier passed both checks
    on every file; the response echoes the file names in order; the job is
    stored as PROCESSING with those names and their number; exactly one
    orchestration task is appended to the queue; and the status endpoint then
    reports the job as processing with no successful file. *)
Theorem accepted_upload_creates_processing_job files flag w r w' :
  upload_documents E files flag w = (Ok r, w') ->
  files <> []
  /\ Forall (fun f => acceptable E f = true) files
  /\ ur_filenames r = map uf_filename files
  /\ ur_total_files r = length files
  /\ ur_job_id r = uuid4_at E (clock w)
  /\ jobs w' = <[ur_job_id r := new_job (ur_job_id r) (map uf_filename files) flag
                                  (now_at E (S (clock w)))]> (jobs w)
  /\ background_tasks w'
     = background_tasks w
       ++ [{| task_job_id := ur_job_id r;
              task_files := saved_paths E (ur_job_id r) 0 files;
              task_enhanced := flag |}]
  /\ exists view,
       get_status (ur_job_id r) w' = (Ok view, w')
       /\ sv_status view = PROCESSING
       /\ sv_filenames view = map uf_filename files
       /\ sv_total_files view = length files
       /\ sv_successful_files view = 0.
Proof.
  rewrite upload_documents_cases. destruct files as [|f0 files0] eqn:Hfiles; [discriminate|].
  rewrite <- Hfiles.
  destruct (for_enumerate _ _ _ _ _) as [[st|[c d|m]] w1] eqn:Hloop; try discriminate.
  intros [= <- <-].
  apply for_enumerate_ok in Hloop as (Hall & -> & ->). simpl.
  split; [subst; discriminate|]. split; [exact Hall|].
  unfold saved_names. rewrite length_map.
  repeat (split; [reflexivity|]).
  eexists. unfold get_status, bind, get_world. simpl. rewrite lookup_insert_eq.
  split; [reflexivity|]. simpl. rewrite length_map. repeat split.
  subst files. reflexivity.
Qed.

(** X8. After an accepted upload the orchestrator reads back exactly what was
    uploaded: the paths of the scheduled task, read in order, give each file's
    own bytes and name, also when several files of the submission have the
    same name (the index in the path keeps them apart). *)
Theorem uploads_are_read_back files flag w r w' :
  upload_documents E files flag w = (Ok r, w') ->
  readable_uploads E w' (saved_paths E (ur_job_id r) 0 files) = map to_upload files
  /\ forall k f, files !! k = Some f ->
       open_rb E (upload_path E (ur_job_id r) k (uf_filename f)) w'
         = (Ok (uf_content f), w').
Proof.
  rewrite upload_documents_cases. destruct files as [|f0 files0] eqn:Hfiles; [discriminate|].
  rewrite <- Hfiles.
  destruct (for_enumerate _ _ _ _ _) as [[st|[c d|m]] w1] eqn:Hloop; try discriminate.
  intros [= <- <-].
  apply for_enumerate_ok in Hloop as (Hall & -> & ->). simpl.
  assert (forall k f, files !! k = Some f ->
            persist E (uuid4_at E (clock w)) 0 files (disk w)
              !! upload_path E (uuid4_at E (clock w)) (0 + k) (uf_filename f)
            = Some (Raw (uf_content f))) as Hlook.
  { intros k f Hk. now apply persist_lookup. }
  split.
  - eapply as_upload_saved; [reflexivity | exact Hlook].
  - intros k f Hk. specialize (Hlook k f Hk). simpl in Hlook.
    unfold open_rb. simpl. now rewrite Hlook.
Qed.

End AcceptedUploads.

(** ** Refusals *)

Section Refusals.

Context (E : Env).

Lemma validate_and_save_raises id st i f w e w1 :
  validate_and_save E id st i f w = (Raise e, w1) ->
  w1 = w /\ ((exists d, e = HTTPException 400 d) \/ (exists m, e = Exception m)).
Proof.
  unfold validate_and_save, write_file, bind, raise, modify, ret.
  destruct (negb _); [intros [= <- <-]; eauto|].
  destruct (Nat.ltb _ _); [intros [= <- <-]; eauto|].
  destruct (writable E _); [discriminate | intros [= <- <-]; eauto].
Qed.

Lemma for_enumerate_raises id files : forall i st w e w1,
  for_enumerate (validate_and_save E id) i files st w = (Raise e, w1) ->
  (exists d, e = HTTPException 400 d) \/ (exists m, e = Exception m).
Proof.
  induction files as [|f files IH]; intros i st w e w1; simpl; [discriminate|].
  unfold bind. destruct (validate_and_save E id st i f w) as [[st1|e1] w2] eqn:Hf.
  - apply IH.
  - intros [= <- <-]. now apply validate_and_save_raises in Hf as [_ ?].
Qed.

(** X9. However an upload is refused, the caller gets an HTTP error with
    status 400 or 500, no job is stored and no task is scheduled; an empty
    submission is refused with 400 before anything at all has happened. *)
Theorem refused_upload_is_400_or_500 files flag w e w' :
  upload_documents E files flag w = (Raise e, w') ->
  (exists d, e = HTTPException 400 d \/ e = HTTPException 500 d)
  /\ jobs w' = jobs w
  /\ background_tasks w' = background_tasks w
  /\ (files = [] -> e = HTTPException 400 "No files uploaded" /\ w' = w).
Proof.
  intros H. pose proof (upload_documents_jobs E files flag w) as Hj.
  rewrite H in Hj. destruct Hj as (_ & Hjobs & Htasks).
  rewrite upload_documents_cases in H. destruct files as [|f files].
  - injection H as <- <-. repeat split; eauto.
  - destruct (for_enumerate _ _ _ _ _) as [[st|e1] w1] eqn:Hloop; [discriminate|].
    apply for_enumerate_raises in Hloop as [[d ->]|[m ->]]; injection H as <- <-;
      repeat split; eauto; discriminate.
Qed.


(** X11. An export can be repeated: the same request on the world the first
    one left gives the same answer and leaves that world as it is.  And it is
    local: it changes no job, no task and no file other than the export file
    of its own job and format. *)
Theorem export_is_repeatable_and_local id override fmt w :
  let first := export_data E id override fmt w in
  export_data E id override fmt first.2 = first
  /\ jobs first.2 = jobs w
  /\ background_tasks first.2 = background_tasks w
  /\ forall path,
       path <> export_path E id "csv" -> path <> export_path E id "json" ->
       disk first.2 !! path = disk w !! path.
Proof.
  intros first. subst first. rewrite !export_data_cases.
  destruct (jobs w !! id) as [job|] eqn:Hj; simpl; [|rewrite Hj; auto].
  destruct (bool_decide (status job = COMPLETED)) eqn:Hs; simpl;
    [|rewrite Hj, Hs; auto].
  assert (forall evs,
            let a := export_attempt E id (default ∅ (job_summary job)) evs fmt w in
            export_attempt E id (default ∅ (job_summary job)) evs fmt a.2 = a
            /\ jobs a.2 = jobs w /\ background_tasks a.2 = background_tasks w
            /\ forall path,
                 path <> export_path E id "csv" -> path <> export_path E id "json" ->
                 disk a.2 !! path = disk w !! path) as Hatt.
  { intros evs a. subst a. rewrite !export_attempt_cases.
    repeat match goal with |- context [if ?b then _ else _] => destruct b end; simpl;
      (split; [|split; [reflexivity|split; [reflexivity|]]]);
      try reflexivity; try (intros path H1 H2; now rewrite lookup_insert_ne);
      unfold set_disk; simpl; now rewrite insert_insert_eq. }
  destruct override as [|o os].
  - destruct (events job) as [[|ev evs]|] eqn:Hev; simpl; try (rewrite Hj, Hs, Hev; auto).
    destruct (Hatt (ev :: evs)) as (H1 & H2 & H3 & H4). rewrite H2, Hj, Hs, Hev. auto.
  - destruct (Hatt (o :: os)) as (H1 & H2 & H3 & H4). rewrite H2, Hj, Hs. auto.
Qed.

End Refusals.

(** ** From the upload to the pipeline *)

Section UploadThenRun.

Context (E : Env).

(** The response and the world of an accepted upload, in full. *)
Lemma upload_documents_accepts files flag w r w' :
  upload_documents E files flag w = (Ok r, w') ->
  let id := uuid4_at E (clock w) in
  files <> []
  /\ r = upload_result id (saved_names files) flag
  /\ w' = created_world E id (saved_names files, saved_paths E id 0 files) flag
            (set_disk (persist E id 0 files) (tick w)).
Proof.
  rewrite upload_documents_cases. destruct files as [|f0 files0] eqn:Hfiles; [discriminate|].
  rewrite <- Hfiles.
  destruct (for_enumerate _ _ _ _ _) as [[st|[c d|m]] w1] eqn:Hloop; try discriminate.
  intros [= <- <-]. apply for_enumerate_ok in Hloop as (_ & -> & ->).
  split; [subst; discriminate | split; reflexivity].
Qed.

Lemma saved_paths_length id files : forall i, length (saved_paths E id i files) = length files.
Proof. induction files as [|f files IH]; intros i; simpl; [reflexivity | now rewrite IH]. Qed.

Lemma saved_paths_names id files : forall i, map snd (saved_paths E id i files) = saved_names files.
Proof. induction files as [|f files IH]; intros i; simpl; [reflexivity | now rewrite IH]. Qed.

Lemma uploads_readable files flag w r w' :
  upload_documents E files flag w = (Ok r, w') ->
  readable_uploads E w' (saved_paths E (ur_job_id r) 0 files) = map to_upload files.
Proof.
  intros H. apply upload_documents_accepts in H as (_ & -> & ->). simpl.
  eapply as_upload_saved; [reflexivity|]. intros k f Hk. now apply persist_lookup.
Qed.

(** X12. The run scheduled by an accepted upload, started on the world the
    upload left, finds every file: for a submission of several files the
    standard pipeline is handed exactly the uploaded files, bytes and names,
    in order.  Whatever the number of files, the run leaves the job in a
    terminal state, COMPLETED or FAILED, still listing the uploaded names and
    their number. *)
Theorem uploaded_files_reach_the_pipeline files flag w r w' :
  upload_documents E files flag w = (Ok r, w') ->
  let task := {| task_job_id := ur_job_id r;
                 task_files := saved_paths E (ur_job_id r) 0 files;
                 task_enhanced := flag |} in
  background_tasks w' = background_tasks w ++ [task]
  /\ (length files <> 1 ->
      for_each (process_file E flag (length (task_files task))) (task_files task) acc0 w'
        = (Ok (add_uploads (map to_upload files) acc0), w'))
  /\ exists j',
       jobs (world_after (run_task E task) w') !! ur_job_id r = Some j'
       /\ (status j' = COMPLETED \/ status j' = FAILED)
       /\ filenames j' = map uf_filename files
       /\ total_files j' = length files.
Proof.
  intros H task. pose proof (uploads_readable _ _ _ _ _ H) as Hread.
  pose proof (upload_documents_accepts _ _ _ _ _ H) as (Hne & Hr & Hw').
  split; [subst; reflexivity|]. split.
  - intros Hn. subst task. cbn [task_files].
    rewrite loop_all_batch, Hread; [reflexivity|].
    apply not_enhanced_when_several. now rewrite saved_paths_length.
  - assert (jobs w' !! ur_job_id r
            = Some (new_job (ur_job_id r) (saved_names files) flag
                      (now_at E (S (clock w))))) as Hj.
    { subst r w'. simpl. apply lookup_insert_eq. }
    destruct (run_effect E (ur_job_id r) (saved_paths E (ur_job_id r) 0 files) flag w' _ Hj)
      as (acc & _ & Hrun).
    subst task. unfold world_after, run_task. cbn [task_job_id task_enhanced task_files].
    rewrite Hrun.
    destruct (writable E (results_path E (ur_job_id r))); simpl;
      rewrite lookup_insert_eq; eexists; (split; [reflexivity|]); simpl.
    + split; [now left|]. split; [reflexivity|]. apply saved_paths_length.
    + split; [now right|]. split; [reflexivity|]. unfold saved_names. apply length_map.
Qed.

(** The batch-labelled upload, as the cap before and the label after the
    plain one. *)
Lemma upload_batch_documents_as_labelled files flag label w :
  upload_batch_documents E files flag label w = labelled_submission E files flag label w.
Proof.
  unfold upload_batch_documents, labelled_submission, try_except.
  destruct files as [|f files].
  - rewrite upload_documents_cases. reflexivity.
  - destruct (Nat.ltb 10 (length (f :: files))); [reflexivity|].
    unfold bind at 1.
    pose proof (upload_documents_jobs E (f :: files) flag w) as H.
    destruct (upload_documents E (f :: files) flag w) as [[r|e] w1].
    + destruct H as (names & t & Hj). unfold bind.
      now rewrite (attach_batch_name_after_upload _ label w1 _ _ Hj).
    + destruct H as ((c & d & ->) & _). reflexivity.
Qed.

(** X13. A batch of more than ten files is refused before anything happens:
    the world is left exactly as it was, no file written.  An accepted batch
    has at most ten files; its response carries the label as given and the
    number of files; the plain upload of the same files is accepted with the
    same answer; and the job stored under the returned identifier is, field
    by field, a PROCESSING job with the submitted names whose [batch_name] is
    the label when the label is a non-empty string, and absent otherwise.  No
    other job is changed. *)
Theorem batch_cap_and_label files flag label w :
  (10 < length files ->
   upload_batch_documents E files flag label w
     = (Raise (HTTPException 400 "Maximum 10 files per batch"), w))
  /\ (forall br w',
        upload_batch_documents E files flag label w = (Ok br, w') ->
        0 < length files <= 10
        /\ br_batch_name br = label
        /\ br_batch_size br = length files
        /\ upload_documents E files flag w
           = (Ok (br_result br),
              if label_given label
              then set_jobs (fun js => <[ur_job_id (br_result br) :=
                                           new_job (ur_job_id (br_result br))
                                             (map uf_filename files) flag
                                             (now_at E (S (clock w)))]> js) w'
              else w')
        /\ jobs w' !! ur_job_id (br_result br)
           = Some {| job_id := ur_job_id (br_result br); status := PROCESSING;
                     user := "demo";
                     filenames := map uf_filename files;
                     total_files := length (map uf_filename files);
                     use_enhanced_processing := flag;
                     created_at := now_at E (S (clock w));
                     events := None; job_summary := None; has_laytime_data := None;
                     processed_at := None; result_file := None;
                     processed_files := None; successful_files := None;
                     error := None; failed_at := None;
                     batch_name := if label_given label then label else None |}
        /\ forall other, other <> ur_job_id (br_result br) ->
             jobs w' !! other = jobs w !! other).
Proof.
  rewrite upload_batch_documents_as_labelled. unfold labelled_submission. split.
  - intros Hlen. apply Nat.ltb_lt in Hlen. now rewrite Hlen.
  - intros br w'. destruct (Nat.ltb 10 (length files)) eqn:Hlen; [discriminate|].
    apply Nat.ltb_ge in Hlen.
    destruct (upload_documents E files flag w) as [[r|e] w1] eqn:Hup; [|discriminate].
    intros [= <- <-]. cbn [br_result br_batch_name br_batch_size].
    pose proof (upload_documents_accepts _ _ _ _ _ Hup) as (Hne & Hr & Hw1).
    split; [destruct files; [contradiction | simpl in *; lia]|].
    split; [reflexivity|]. split; [reflexivity|].
    assert (jobs w1 = <[ur_job_id r := new_job (ur_job_id r) (map uf_filename files) flag
                                         (now_at E (S (clock w)))]> (jobs w)) as Hj.
    { rewrite Hw1, Hr. reflexivity. }
    destruct (label_given label); simpl.
    + split; [|split].
      * f_equal. destruct w1. unfold set_jobs. simpl in *. f_equal.
        now rewrite Hj, alter_insert_eq, insert_insert_eq.
      * now rewrite Hj, alter_insert_eq, lookup_insert_eq.
      * intros other Hother. rewrite Hj, alter_insert_eq.
        now rewrite lookup_insert_ne by congruence.
    + split; [reflexivity|]. split; [now rewrite Hj, lookup_insert_eq|].
      intros other Hother. rewrite Hj. now rewrite lookup_insert_ne by congruence.
Qed.

End UploadThenRun.

(** ** Laytime flag and extensions *)

Section FlagsAndExtensions.

Context (E : Env).

Lemma append_nonempty d c s : d +:+ String c s <> "".
Proof. destruct d; discriminate. Qed.

Lemma pretty_N_nonempty (x : N) : pretty x <> "".
Proof.
  unfold pretty, pretty_N. case_decide; [discriminate|].
  assert (0 < x)%N as Hpos by lia. rewrite pretty_N_go_step by exact Hpos.
  destruct (pretty_N_go_digits (x `div` 10)%N (String (pretty_N_char (x `mod` 10)) ""))
    as (d & -> & _).
  apply append_nonempty.
Qed.

Lemma pretty_Z_nonempty (z : Z) : pretty z <> "".
Proof.
  unfold pretty, pretty_Z. destruct z as [|p|p].
  - discriminate.
  - apply (pretty_N_nonempty (Npos p)).
  - rewrite append_cons. discriminate.
Qed.

Lemma truthy_normalize_value v : truthy (normalize_value E v) = cell_counts E v.
Proof.
  destruct v as [| |s|t|n|[|]]; try reflexivity. simpl.
  destruct (String.eqb (pretty n) "") eqn:Hn; [|reflexivity].
  apply String.eqb_eq in Hn. now destruct (pretty_Z_nonempty n).
Qed.

Lemma dict_get_normalize_event k ev :
  dict_get k (normalize_event E ev) = normalize_value E <$> dict_get k ev.
Proof.
  induction ev as [|[k' v] ev IH]; [reflexivity|]. simpl.
  destruct (String.eqb k k'); [reflexivity | exact IH].
Qed.

(** X14. What makes a job laytime-bearing.  Over the events of an extracted
    frame, the flag computed from the normalised events is true exactly when
    some event has a [laytime_counts] cell that is present, not missing
    ([None], [NaN]) and not an empty string: since every other value is
    stored as its string form, a cell holding [False] or [0] counts as much as
    one holding [True].  The test on the number of events adds nothing. *)
Theorem laytime_flag_counts_any_filled_cell (df : DataFrame) n acc :
  any_laytime_counts (map (normalize_event E) (to_dict_records df))
    = existsb (fun ev => match dict_get "laytime_counts" ev with
                         | Some v => cell_counts E v
                         | None => false
                         end) (to_dict_records df)
  /\ rd_has_laytime_data (make_result_data n acc) = any_laytime_counts (all_events_list acc)
  /\ cell_counts E (VBool false) = true
  /\ cell_counts E (VNum 0) = true.
Proof.
  split; [|split; [|split; reflexivity]].
  - unfold any_laytime_counts. induction (to_dict_records df) as [|ev evs IH]; [reflexivity|].
    simpl. rewrite IH, dict_get_normalize_event.
    destruct (dict_get "laytime_counts" ev) as [v|]; simpl; [|reflexivity].
    now rewrite truthy_normalize_value.
  - unfold make_result_data. simpl. destruct (all_events_list acc); reflexivity.
Qed.

Lemma lower_ascii_dot c : lower_ascii c = "."%char <-> c = "."%char.
Proof.
  destruct c as [[] [] [] [] [] [] [] []]; vm_compute; split; intros H;
    first [reflexivity | discriminate H].
Qed.

Lemma lower_app a b : lower (a +:+ b) = lower a +:+ lower b.
Proof.
  induction a as [|c a IH]; rewrite ?append_cons, ?append_empty; [reflexivity|].
  simpl. rewrite append_cons. now rewrite IH.
Qed.

Lemma lower_no_dot s : no_dot s -> no_dot (lower s).
Proof.
  induction s as [|c s IH]; simpl; [auto|]. intros [Hc Hs]. split; [|auto].
  now rewrite lower_ascii_dot.
Qed.

Lemma last_segment_from_no_dot s : forall acc,
  no_dot s -> last_segment_from acc s = acc +:+ s.
Proof.
  induction s as [|c s IH]; intros acc; cbn [last_segment_from no_dot].
  - intros _. induction acc as [|x acc IHa]; rewrite ?append_cons, ?append_empty;
      [reflexivity | now rewrite <- IHa].
  - intros [Hc Hs]. destruct (Ascii.eqb c ".") eqn:Hd.
    + apply Ascii.eqb_eq in Hd. contradiction.
    + rewrite IH by exact Hs. rewrite append_assoc_string.
      now rewrite append_cons, append_empty.
Qed.

Lemma last_segment_from_dot stem : forall acc ext,
  no_dot ext -> last_segment_from acc (stem +:+ String "." ext) = ext.
Proof.
  induction stem as [|c stem IH]; intros acc ext Hext;
    rewrite ?append_cons, ?append_empty; cbn [last_segment_from].
  - change (Ascii.eqb "." ".") with true. cbv iota.
    now rewrite last_segment_from_no_dot, append_empty.
  - destruct (Ascii.eqb c "."); now rewrite IH.
Qed.

(** X15. For a file name made of ASCII characters, the extension the upload
    check and the dispatch look at is what follows the last dot of the name,
    with the letters [A] to [Z] in lower case: for a name [stem.ext] with no
    dot in [ext] it is [ext] lowered, whatever [stem] contains; a name
    without any dot is, whole and lowered, its own extension. *)
Theorem extension_follows_the_last_dot stem ext :
  isascii stem = true ->
  isascii ext = true ->
  no_dot ext ->
  last_segment (lower (stem +:+ "." +:+ ext)) = lower ext
  /\ dotted_extension (stem +:+ "." +:+ ext) = "." +:+ lower ext
  /\ dotted_extension ext = "." +:+ lower ext
  /\ forall flag n,
       takes_enhanced_path flag (stem +:+ "." +:+ ext) n
         = flag && String.eqb (lower ext) "pdf" && Nat.eqb n 1.
Proof.
  intros _ _ Hext. pose proof (lower_no_dot ext Hext) as Hl.
  assert (last_segment (lower (stem +:+ "." +:+ ext)) = lower ext) as H1.
  { rewrite !lower_app. unfold last_segment.
    change (lower "." +:+ lower ext) with (String "." (lower ext)).
    now apply last_segment_from_dot. }
  assert (last_segment (lower ext) = lower ext) as H2.
  { unfold last_segment. rewrite last_segment_from_no_dot by exact Hl.
    apply append_empty. }
  unfold dotted_extension, takes_enhanced_path. rewrite H1, H2. auto.
Qed.

End FlagsAndExtensions.

(** ** The laytime endpoint *)

Section LaytimeEndpointFacts.

Context {number : Type} (calculate : summary -> DataFrame -> outcome (@SofLaytimeResult number)).

Lemma add_new_keeps seen ks : seen <> [] -> add_new seen ks <> [].
Proof.
  revert seen. induction ks as [|k ks IH]; intros seen Hs; simpl; [exact Hs|].
  destruct (bool_decide (k ∈ seen)); apply IH; [exact Hs|].
  destruct seen; discriminate.
Qed.

Lemma union_keys_nil evs : union_keys evs = [] <-> Forall (fun ev => ev = []) evs.
Proof.
  unfold union_keys.
  assert (forall seen,
            fold_left (fun seen ev => add_new seen (dict_keys ev)) evs seen = [] <->
            seen = [] /\ Forall (fun ev => ev = []) evs) as H.
  { induction evs as [|ev evs IH]; intros seen; simpl.
    - split; [intros ->; auto | tauto].
    - rewrite IH. split.
      + intros [Hadd Hall]. destruct seen as [|x seen].
        * destruct ev as [|[k v] ev]; [auto|]. simpl in Hadd.
          now destruct (add_new_keeps [k] (map fst ev)).
        * now destruct (add_new_keeps (x :: seen) (dict_keys ev)).
      + intros [-> Hall]. inversion Hall as [|? ? -> Hrest]. auto. }
  rewrite H. tauto.
Qed.

Lemma df_empty_of_records evs :
  df_empty (DataFrame_of_records evs) = true <-> Forall (fun ev => ev = []) evs.
Proof.
  unfold df_empty, DataFrame_of_records. simpl. rewrite length_map.
  rewrite orb_true_iff, !Nat.eqb_eq, <- union_keys_nil. split.
  - intros [H|H]; [destruct evs; [reflexivity | discriminate] | now destruct (union_keys evs)].
  - intros ->. now right.
Qed.

(** X16. The laytime endpoint keeps no state and never answers 400.  When the
    submitted events have no field at all (no event, or only empty ones), the
    calculation is not run and the 400 raised for it leaves as a 500;
    otherwise the answer is the calculation's result, field by field, or a 500
    carrying its error.  Every error of the endpoint is a 500. *)
Theorem laytime_endpoint_answers sm evs w :
  (calculate_laytime_endpoint calculate sm evs w).2 = w
  /\ (Forall (fun ev => ev = []) evs ->
      (calculate_laytime_endpoint calculate sm evs w).1
        = Raise (HTTPException 500
                   "Laytime calculation failed: 400: No events provided for calculation"))
  /\ (~ Forall (fun ev => ev = []) evs ->
      (calculate_laytime_endpoint calculate sm evs w).1
        = match calculate sm (DataFrame_of_records evs) with
          | Ok r => Ok (laytime_response r)
          | Raise e => Raise (HTTPException 500 ("Laytime calculation failed: " +:+ str_exn e))
          end)
  /\ (forall e, (calculate_laytime_endpoint calculate sm evs w).1 = Raise e ->
                exists d, e = HTTPException 500 d).
Proof.
  unfold calculate_laytime_endpoint, try_except.
  destruct (df_empty (DataFrame_of_records evs)) eqn:Hempty.
  - apply df_empty_of_records in Hempty. simpl. repeat split.
    + intros Hne. contradiction.
    + intros e [= <-]. eauto.
  - assert (~ Forall (fun ev => ev = []) evs) as Hne.
    { intros H. apply df_empty_of_records in H. congruence. }
    unfold bind, call, ret, raise.
    destruct (calculate sm (DataFrame_of_records evs)) as [r|e0]; simpl; repeat split;
      try (intros H; contradiction); try discriminate.
    intros e [= <-]. eauto.
Qed.

End LaytimeEndpointFacts.

(** ** Authentication handlers *)

Section AuthenticationFacts.

Context {Db : Type} (A : @AuthEnv Db).

(** X17. How [register] answers.  A rejected e-mail address or password is
    answered 500, not 400: the 400 raised for it is taken by the handler's
    [except Exception] clause; the store is not touched.  The handler answers
    400 exactly when both checks pass and [create_user] raises a [ValueError],
    whose message it passes on.  On success the answer describes the user
    [create_user] returned, made with the hash of the submitted password. *)
Theorem register_answers uc db :
  (validate_email A (new_email uc) = false ->
   register A uc db
     = (Raised (AuthHTTP 500 "Registration failed: 400: Invalid email format"), db))
  /\ (validate_email A (new_email uc) = true ->
      validate_password_strength A (new_password uc) = false ->
      register A uc db
        = (Raised (AuthHTTP 500 ("Registration failed: 400: " +:+ weak_password_detail)), db))
  /\ (forall d db',
        register A uc db = (Raised (AuthHTTP 400 d), db') <->
        validate_email A (new_email uc) = true /\
        validate_password_strength A (new_password uc) = true /\
        create_user A uc (get_password_hash A (new_password uc)) db
          = (Raised (ValueError d), db'))
  /\ (forall r db',
        register A uc db = (Returned r, db') <->
        validate_email A (new_email uc) = true /\
        validate_password_strength A (new_password uc) = true /\
        exists u, create_user A uc (get_password_hash A (new_password uc)) db
                    = (Returned u, db') /\ r = user_response u).
Proof.
  unfold register, register_body.
  destruct (validate_email A (new_email uc)); simpl.
  2: { repeat split; try discriminate; intros (? & _); discriminate. }
  destruct (validate_password_strength A (new_password uc)); simpl.
  2: { repeat split; try discriminate; intros (_ & ? & _); discriminate. }
  split; [discriminate|]. split; [discriminate|].
  destruct (create_user A uc (get_password_hash A (new_password uc)) db)
    as [[u|[c d0|m|m]] db1]; split; intros x db'; split.
  - discriminate.
  - intros (_ & _ & [=]).
  - intros [= <- <-]. eauto.
  - intros (_ & _ & u' & [= <- <-] & ->). reflexivity.
  - discriminate.
  - intros (_ & _ & [=]).
  - discriminate.
  - intros (_ & _ & u' & [=] & _).
  - intros [= <- <-]. auto.
  - intros (_ & _ & [= <- <-]). reflexivity.
  - discriminate.
  - intros (_ & _ & u' & [=] & _).
  - discriminate.
  - intros (_ & _ & [=]).
  - discriminate.
  - intros (_ & _ & u' & [=] & _).
Qed.

(** X18. [login] does not tell an unknown user from a wrong password: both
    are answered with the same 401 and leave the store as it is.  A token is
    returned only if the user exists and the password verifies against the
    stored hash; it is the bearer token made for that user's name, and the
    store is then the one with the last login updated. *)
Theorem login_reveals_nothing name password db :
  (get_user_by_username A name db = None ->
   login A name password db = (Raised bad_credentials, db))
  /\ (forall u,
        get_user_by_username A name db = Some u ->
        verify_password A password (hashed_password u) = false ->
        login A name password db = (Raised bad_credentials, db))
  /\ (forall t db',
        login A name password db = (Returned t, db') ->
        exists u,
          get_user_by_username A name db = Some u /\
          verify_password A password (hashed_password u) = true /\
          db' = update_last_login A (username u) db /\
          access_token t = create_access_token A (username u) (ACCESS_TOKEN_EXPIRE_MINUTES A) /\
          token_type t = "bearer").
Proof.
  unfold login, login_body. split; [intros ->; reflexivity|]. split.
  - intros u -> ->. reflexivity.
  - intros t db'. destruct (get_user_by_username A name db) as [u|]; [|discriminate].
    destruct (verify_password A password (hashed_password u)) eqn:Hv; simpl; [|discriminate].
    unfold issue_token.
    destruct (get_user_by_username A (username u) (update_last_login A (username u) db));
      [|discriminate].
    intros [= <- <-]. exists u. repeat split. exact Hv.
Qed.

(** X19. [demo_login] is [login] for the user [demo] without the password
    check: whenever [login] returns a token for [demo], [demo_login] returns
    the same token and store.  Its own refusal, when there is no such user,
    is raised as a 404 but answered as a 500, the store untouched; the
    profile endpoint, which has no [try] block, does answer 404 for an
    unknown user. *)
Theorem demo_login_skips_the_password db :
  (forall password t db',
      login A "demo" password db = (Returned t, db') ->
      demo_login A db = (Returned t, db'))
  /\ (get_user_by_username A "demo" db = None ->
      demo_login A db
        = (Raised (AuthHTTP 500 "Demo login failed: 404: Demo user not found"), db))
  /\ (forall name,
        name <> "demo@sof-extractor.com" ->
        get_user_by_username A name db = None ->
        get_current_user_info A name db = Raised (AuthHTTP 404 "User not found")).
Proof.
  split; [|split].
  - intros password t db'. unfold login, login_body, demo_login, demo_login_body.
    destruct (get_user_by_username A "demo" db) as [u|]; [|discriminate].
    destruct (verify_password A password (hashed_password u)); simpl; [|discriminate].
    destruct (issue_token A u db) as [[t0|e] db1]; [auto|].
    destruct e; discriminate.
  - intros H. unfold demo_login, demo_login_body. now rewrite H.
  - intros name Hne H. unfold get_current_user_info. rewrite H.
    apply String.eqb_neq in Hne. now rewrite Hne.
Qed.

End AuthenticationFacts.

(** ** The demo-user script *)

(** X20. The script can be run again and again: it sets the entry of the
    demo address to the demo user with the given hash, keeps every other
    entry of a file it could read, and a second run with the same hash
    changes nothing; a later run with another hash only replaces the hash.
    When the file cannot be read or parsed, the file written holds the demo
    user alone. *)
Theorem create_demo_user_is_idempotent hash read :
  create_demo_user hash read !! "demo@sof-extractor.com" = Some (demo_user hash)
  /\ (forall address, address <> "demo@sof-extractor.com" ->
        create_demo_user hash read !! address = default ∅ read !! address)
  /\ create_demo_user hash (Some (create_demo_user hash read)) = create_demo_user hash read
  /\ (forall hash', create_demo_user hash' (Some (create_demo_user hash read))
                    = create_demo_user hash' read)
  /\ create_demo_user hash None = {["demo@sof-extractor.com" := demo_user hash]}.
Proof.
  unfold create_demo_user. simpl. repeat split.
  - apply lookup_insert_eq.
  - intros address Hne. now apply lookup_insert_ne.
  - apply insert_insert_eq.
  - intros hash'. apply insert_insert_eq.
Qed.

(** ** The further properties on concrete submissions *)

Module Runs.

(** The run of the lone PDF's task on the world its upload left. *)
Lemma lone_pdf_is_the_processed_file :
  exists j' names,
    jobs (world_after (process_documents_with_sof_pipeline with_key "job0"
                         [("uploads/job0_0_a.pdf", "a.pdf")] true) one_pdf_uploaded) !! "job0"
      = Some j' /\
    processed_files j' = Some names /\
    sublist names (map snd [("uploads/job0_0_a.pdf", "a.pdf")]) /\
    successful_files j' = Some (length names).
Proof.
  refine (processed_files_are_submitted_names with_key "job0"
            [("uploads/job0_0_a.pdf", "a.pdf")] true one_pdf_uploaded
            (new_job "job0" ["a.pdf"] true "t1") _ _).
  - vm_compute. reflexivity.
  - vm_compute. reflexivity.
Defined.

Lemma lone_pdf_result_file :
  exists j' rd,
    jobs (world_after (process_documents_with_sof_pipeline with_key "job0"
                         [("uploads/job0_0_a.pdf", "a.pdf")] true) one_pdf_uploaded) !! "job0"
      = Some j' /\
    disk (world_after (process_documents_with_sof_pipeline with_key "job0"
                         [("uploads/job0_0_a.pdf", "a.pdf")] true) one_pdf_uploaded)
      !! "results/job0_results.json" = Some (ResultsJson rd) /\
    events j' = Some (rd_events rd) /\
    successful_files j' = Some (rd_successful_files rd).
Proof.
  destruct (result_file_agrees_with_job with_key "job0"
              [("uploads/job0_0_a.pdf", "a.pdf")] true one_pdf_uploaded
              (new_job "job0" ["a.pdf"] true "t1"))
    as (j' & rd & Hj & Hd & _ & He & _ & _ & _ & _ & Hs & _).
  - vm_compute. reflexivity.
  - vm_compute. reflexivity.
  - exists j', rd. auto.
Defined.

Lemma lone_pdf_summary_has_no_source :
  exists j' sm,
    jobs (world_after (process_documents_with_sof_pipeline with_key "job0"
                         [("uploads/job0_0_a.pdf", "a.pdf")] true) one_pdf_uploaded) !! "job0"
      = Some j' /\
    job_summary j' = Some sm /\ sm !! "source_file" = None.
Proof.
  destruct (single_summary_without_source with_key "job0"
              [("uploads/job0_0_a.pdf", "a.pdf")] true one_pdf_uploaded
              (new_job "job0" ["a.pdf"] true "t1"))
    as (acc & j' & sm & _ & _ & Hj & Hs & Hn & _).
  - vm_compute. reflexivity.
  - vm_compute. reflexivity.
  - exists j', sm. auto.
Defined.

Example lone_pdf_stored_summary :
  job_summary job0_done = Some {["port" := VStr "Rotterdam"]}.
Proof. vm_compute. reflexivity. Qed.

Lemma lone_pdf_events_are_strings :
  Forall stored_event (default [] (events job0_done)).
Proof.
  refine (stored_event_values_are_null_or_string with_key world0 demo_trace "job0"
            job0_done (default [] (events job0_done)) _ _ _).
  - reflexivity.
  - vm_compute. reflexivity.
  - reflexivity.
Defined.

(** The timestamp and the boolean of the extracted frame, as stored. *)
Example lone_pdf_first_event :
  head (default [] (events job0_done))
  = Some [("Event", VStr "Arrival"); ("start", VStr "iso0");
          ("laytime_counts", VStr "True"); ("Filename", VStr "a.pdf"); ("notes", VNone)].
Proof. reflexivity. Qed.

Lemma lone_pdf_can_be_read :
  well_formed "job0" job0_done
  /\ exists view,
       get_result "job0" (serve_all with_key world0 demo_trace)
         = (Ok view, serve_all with_key world0 demo_trace)
       /\ view_matches "job0" job0_done view.
Proof.
  refine (stored_jobs_can_be_read with_key world0 demo_trace "job0" job0_done _ _).
  - reflexivity.
  - vm_compute. reflexivity.
Defined.

Lemma two_files_accepted :
  Forall (fun f => acceptable with_key f = true) [file_a_pdf; file_b_txt]
  /\ ur_filenames (upload_result "job0" ["a.pdf"; "b.txt"] true)
     = map uf_filename [file_a_pdf; file_b_txt].
Proof.
  destruct (accepted_upload_creates_processing_job with_key [file_a_pdf; file_b_txt] true
              world0 (upload_result "job0" ["a.pdf"; "b.txt"] true)
              (world_after (upload_documents with_key [file_a_pdf; file_b_txt] true) world0))
    as (_ & Hall & Hnames & _).
  - vm_compute. reflexivity.
  - auto.
Defined.

(** Two files named [a.pdf] are stored under two paths and read back apart. *)
Lemma same_name_files_are_read_back :
  readable_uploads with_key same_name_uploaded
    (saved_paths with_key "job0" 0 same_name_files)
  = map to_upload same_name_files.
Proof.
  refine (proj1 (uploads_are_read_back with_key same_name_files false world0
                   (upload_result "job0" ["a.pdf"; "a.pdf"] false) same_name_uploaded _)).
  vm_compute. reflexivity.
Defined.

Example same_name_files_on_disk :
  disk same_name_uploaded !! "uploads/job0_0_a.pdf" = Some (Raw [x00])
  /\ disk same_name_uploaded !! "uploads/job0_1_a.pdf" = Some (Raw [x00; x00; x00]).
Proof. vm_compute. split; reflexivity. Qed.

Lemma refused_exe_stores_no_job :
  upload_documents with_key [file_c_exe] true world0
    = (Raise (HTTPException 400 (unsupported_type_detail "c.exe")), tick world0)
  /\ jobs (tick world0) = jobs world0
  /\ background_tasks (tick world0) = background_tasks world0.
Proof.
  assert (Hrun : upload_documents with_key [file_c_exe] true world0
                 = (Raise (HTTPException 400 (unsupported_type_detail "c.exe")),
                    tick world0))
    by (vm_compute; reflexivity).
  split; [exact Hrun|].
  destruct (refused_upload_is_400_or_500 with_key [file_c_exe] true world0 _ _ Hrun)
    as (_ & Hjobs & Htasks & _).
  split; assumption.
Defined.


Example export_refusals :
  response_of (export_data with_key "job0" [] "csv") one_pdf_uploaded
    = Raise (HTTPException 400 "Job not completed yet")
  /\ response_of (export_data with_key "nojob" [] "csv") one_pdf_done
     = Raise (HTTPException 404 "Job not found")
  /\ response_of (export_data read_only_results "job0" [] "csv") one_pdf_done
     = Raise (HTTPException 500 "Export failed: cannot write /readonly/job0_export.csv").
Proof. vm_compute. repeat split. Qed.

Lemma two_files_reach_the_pipeline :
  exists j',
    jobs (world_after
            (run_task with_key
               {| task_job_id := "job0";
                  task_files := saved_paths with_key "job0" 0 [file_a_pdf; file_b_txt];
                  task_enhanced := true |})
            (world_after (upload_documents with_key [file_a_pdf; file_b_txt] true) world0))
      !! "job0" = Some j'
    /\ (status j' = COMPLETED \/ status j' = FAILED)
    /\ filenames j' = map uf_filename [file_a_pdf; file_b_txt]
    /\ total_files j' = length [file_a_pdf; file_b_txt].
Proof.
  refine (proj2 (proj2 (uploaded_files_reach_the_pipeline with_key [file_a_pdf; file_b_txt]
                          true world0 (upload_result "job0" ["a.pdf"; "b.txt"] true)
                          (world_after (upload_documents with_key [file_a_pdf; file_b_txt] true)
                             world0) _))).
  vm_compute. reflexivity.
Defined.

Lemma extension_of_an_upper_case_name :
  dotted_extension ("report.final" +:+ "." +:+ "PDF") = "." +:+ lower "PDF".
Proof.
  refine (proj1 (proj2 (extension_follows_the_last_dot "report.final" "PDF" _ _ _))).
  - reflexivity.
  - reflexivity.
  - simpl. repeat split; discriminate.
Defined.

(** A labelled batch of two files: the stored job carries the label. *)
Lemma labelled_batch_stores_its_label :
  batch_name <$> (jobs (world_after (upload_batch_documents with_key
                                        [file_a_pdf; file_b_txt] true (Some "voyage 7"))
                           world0) !! "job0")
  = Some (Some "voyage 7").
Proof.
  pose proof (proj2 (batch_cap_and_label with_key [file_a_pdf; file_b_txt] true
                       (Some "voyage 7") world0)
                {| br_result := upload_result "job0" ["a.pdf"; "b.txt"] true;
                   br_batch_name := Some "voyage 7"; br_batch_size := 2 |}
                (world_after (upload_batch_documents with_key
                                [file_a_pdf; file_b_txt] true (Some "voyage 7")) world0))
    as H.
  destruct H as (_ & _ & _ & _ & Hjob & _); [vm_compute; reflexivity|].
  cbn [br_result] in Hjob.
  change (ur_job_id (upload_result "job0" ["a.pdf"; "b.txt"] true)) with "job0" in Hjob.
  rewrite Hjob. reflexivity.
Defined.

(** An empty label and no label leave the job without the key. *)
Example unlabelled_batches_store_no_label :
  batch_name <$> (jobs (world_after (upload_batch_documents with_key
                                        [file_a_pdf] true (Some "")) world0) !! "job0")
  = Some None
  /\ batch_name <$> (jobs (world_after (upload_batch_documents with_key
                                          [file_a_pdf] true None) world0) !! "job0")
     = Some None.
Proof. vm_compute. split; reflexivity. Qed.

(** A frame whose only [laytime_counts] cell is [False] still sets the flag. *)
Example false_flag_counts :
  any_laytime_counts
    (map (normalize_event with_key)
       (to_dict_records {| columns := ["Event"; "laytime_counts"];
                           rows := [[VStr "Shifting"; VBool false]] |}))
  = true.
Proof. reflexivity. Qed.

End Runs.
